(** * Stress-aware task scheduler: a shallow embedding of [AITaskSchedulerAgent]

    The development embeds the local scheduling agent of the stress
    management coach front end (class [AITaskSchedulerAgent], with the input
    check [validateInputs] of [StressCoachApp]) and settles the properties
    stated about it.

    Conventions of the embedding:
    - minutes ([estimated_duration], [duration_minutes], [remaining_time],
      [allocated_duration]) are JavaScript numbers holding integers: [Z];
    - scores and confidences are JavaScript doubles: rationals [Q]. The
      confidences and urgencies are decimal literals, and a comparison of two
      such literals has the same outcome on the doubles and on the rationals.
      The arithmetic behind [stress_compatibility] and [final_priority] is
      exact here and rounded in the program: two priorities that coincide
      here can differ there in the last place, and the sort can then leave
      the two tasks in the other order. The statements about a call are
      therefore made for every rearrangement of the analysed tasks, or do not
      depend on the order; the statements that compare scores leave a margin
      far above the rounding;
    - a priority is a string. For the names that every object inherits
      ([inheritedNames]: [constructor], [__proto__], ...) the lookup
      [priorityMap[priority]] finds a function or an object, not a number,
      and the final priority is [NaN]; the statements about importance and
      final priority exclude these names;
    - titles are ASCII strings;
    - an array is a [list]; an array of objects that is searched by identity
      ([indexOf]) is a list of (address, object) pairs;
    - the slot objects of [availableSlots] and the items of [schedule] are
      mutated in place through aliases; they are kept in a store (a list
      indexed by position) and referred to by their index;
    - [new Date()] reads the wall clock: the clock is an explicit sequence of
      readings threaded through a small state monad;
    - [console.log] is left out. *)

From Stdlib Require Import ZArith QArith Qminmax Lia Lqa.
From stdpp Require Import base list strings pretty sorting.

Local Open Scope string_scope.
Local Open Scope list_scope.
Local Open Scope Z_scope.

(** ** JavaScript helpers *)

Module JS.

(** [String.prototype.toLowerCase] on the ASCII range. *)
Definition lower_ascii (c : Ascii.ascii) : Ascii.ascii :=
  let n := Ascii.nat_of_ascii c in
  if (65 <=? n)%nat && (n <=? 90)%nat then Ascii.ascii_of_nat (n + 32) else c.

Fixpoint toLowerCase (s : string) : string :=
  match s with
  | EmptyString => EmptyString
  | String c s' => String (lower_ascii c) (toLowerCase s')
  end.

(** [String.prototype.includes]: [word] occurs in [s] as a substring. *)
Fixpoint includes (s word : string) : bool :=
  String.prefix word s ||
  match s with
  | EmptyString => false
  | String _ s' => includes s' word
  end.

(** [Array.prototype.some]. *)
Definition some {A} (p : A → bool) (l : list A) : bool := existsb p l.

(** [Array.prototype.forEach((x, index) => ...)] over an array that the
    callback does not resize: a left fold that also passes the index. *)
Fixpoint forEach_from {A St} (f : St → A → nat → St) (l : list A) (i : nat) (s : St) : St :=
  match l with
  | [] => s
  | x :: l' => forEach_from f l' (S i) (f s x i)
  end.

Definition forEach {A St} (f : St → A → nat → St) (l : list A) (s : St) : St :=
  forEach_from f l 0%nat s.

(** [Array.prototype.find] returning the element together with its position
    (the position is the identity of the object found). *)
Fixpoint find_from {A} (p : A → bool) (l : list A) (i : nat) : option (nat * A) :=
  match l with
  | [] => None
  | x :: l' => if p x then Some (i, x) else find_from p l' (S i)
  end.

Definition find {A} (p : A → bool) (l : list A) : option (nat * A) :=
  find_from p l 0%nat.

(** [Array.prototype.splice(i, 1)] for [i >= 0]. *)
Definition splice1 {A} (i : nat) (l : list A) : list A := delete i l.

(** [Array.prototype.splice(-1, 1)]: a negative start counts from the end. *)
Definition splice_last {A} (l : list A) : list A := take (length l - 1)%nat l.

(** Comparisons of a number that may be [NaN] ([None]) with a constant: every
    comparison with [NaN] is false. *)
Definition le (x : option Q) (c : Q) : bool :=
  match x with
  | Some q => Qle_bool q c
  | None => false
  end.

(** [a > b] on doubles that are not [NaN]. *)
Definition Qgt_bool (a b : Q) : bool := negb (Qle_bool a b).

(** [x || 0] on a number. *)
Definition or0 (x : Q) : Q := if Qeq_bool x 0 then 0%Q else x.

End JS.

(** ** The wall clock *)

(** [clock n] is the time value (milliseconds since the epoch) that the [n]-th
    evaluation of [new Date()] of a run yields. *)
Definition Clock : Type := nat → Z.

(** A computation that may read the clock: it receives the clock and the number
    of readings made so far, and returns its result with the new count. *)
Definition Run (A : Type) : Type := Clock → nat → A * nat.

Global Instance Run_ret : MRet Run := λ A a _ n, (a, n).

Global Instance Run_bind : MBind Run := λ A B k c clk n,
  let '(a, n') := c clk n in k a clk n'.

Definition new_Date : Run Z := λ clk n, (clk n, S n).

(** [Array.prototype.map] with a callback that may read the clock; the callback
    also receives the index. *)
Fixpoint mapM_from {A B} (f : A → nat → Run B) (l : list A) (i : nat) : Run (list B) :=
  match l with
  | [] => mret []
  | x :: l' =>
      y ← f x i;
      ys ← mapM_from f l' (S i);
      mret (y :: ys)
  end.

(** ** Data model *)

(** What [new Date(s)] is for a deadline string [s]: an invalid date (time
    value [NaN]) or a date with a time value in milliseconds. *)
Inductive DateValue : Type :=
  | InvalidDate
  | TimeValue (ms : Z).

Inductive TaskType : Type := deep_work | creative | administrative | routine.

Record Analysis : Type := mkAnalysis {
  a_deadline_urgency : Q;
  importance_score : Q;
  complexity_score : Q;
  task_type : TaskType;
  ai_confidence : Q;
  stress_compatibility : Q;
  final_priority : Q
}.

(** A task object. [deadline] is [None] when the property is absent, [null] or
    the empty string (falsy), and otherwise the date its string denotes.
    [analysis] is present on the objects built by [processScheduleLocally]. *)
Record Task : Type := mkTask {
  id : string;
  title : string;
  description : string;
  estimated_duration : Z;
  priority : string;
  category : string;
  is_flexible : bool;
  deadline : option DateValue;
  analysis : option Analysis
}.

(** An element of an array of task objects: the address of the object and the
    object. [indexOf] compares addresses. *)
Abbreviation TaskRef := (nat * Task)%type.

(** [{...task, title: s}] and [{...task, analysis: a}]: a copy of the object
    with one property replaced. *)
Definition with_title (s : string) (t : Task) : Task :=
  {| id := id t;
     title := s;
     description := description t;
     estimated_duration := estimated_duration t;
     priority := priority t;
     category := category t;
     is_flexible := is_flexible t;
     deadline := deadline t;
     analysis := analysis t |}.

Definition with_analysis (a : Analysis) (t : Task) : Task :=
  {| id := id t;
     title := title t;
     description := description t;
     estimated_duration := estimated_duration t;
     priority := priority t;
     category := category t;
     is_flexible := is_flexible t;
     deadline := deadline t;
     analysis := Some a |}.

(** A time slot as [parseTimeSlots] builds it (its [description], a copy of
    [label], is left out). *)
Record TimeSlot : Type := mkTimeSlot {
  start_time : string;
  end_time : string;
  duration_minutes : Z;
  is_available : bool;
  label : string
}.

(** An object of [availableSlots]: the fields of the time slot it was spread
    from, with [remaining_time] and [used]. *)
Record Slot : Type := mkSlot {
  slot_of : TimeSlot;
  remaining_time : Z;
  used : bool
}.

Inductive Status : Type := complete | partial | scaled | not_scheduled.

Global Instance Status_eq_dec : EqDecision Status.
Proof. solve_decision. Defined.

(** A schedule item. [time_block] is [null] ([None]) or a reference to an
    object of [availableSlots], given by its index there. *)
Record ScheduleItem : Type := mkItem {
  task : Task;
  time_block : option nat;
  allocated_duration : Z;
  completion_status : Status;
  scheduling_confidence : Q;
  deadline_urgency : Q;
  notes : list string
}.

(** ** Scoring *)

(** [calculateDeadlineUrgency]. The two dates are built first ([new Date] of a
    string never throws: an unparseable string gives an invalid date, so the
    [catch] branch is not reachable); [hoursUntil] is [NaN] for an invalid
    date. *)
Definition hoursUntil (d : DateValue) (now : Z) : option Q :=
  match d with
  | InvalidDate => None
  | TimeValue ms => Some (inject_Z (ms - now) / inject_Z (1000 * 60 * 60))%Q
  end.

Definition urgency_of_hours (h : option Q) : Q :=
  if JS.le h 6 then 1.0%Q
  else if JS.le h 24 then 0.9%Q
  else if JS.le h 48 then 0.7%Q
  else if JS.le h 168 then 0.5%Q
  else 0.3%Q.

Definition calculateDeadlineUrgency (t : Task) : Run Q :=
  match deadline t with
  | None => mret 0.2%Q
  | Some d =>
      now ← new_Date;
      mret (urgency_of_hours (hoursUntil d now))
  end.

(** The names of the properties that every object inherits from
    [Object.prototype]. For such a name [priorityMap[priority]] is a function
    (for [__proto__] an object), which [|| 0.6] keeps: the importance is then
    not a number and the final priority is [NaN]. *)
Definition inheritedNames : list string :=
  ["constructor"; "__proto__"; "hasOwnProperty"; "isPrototypeOf";
   "propertyIsEnumerable"; "toLocaleString"; "toString"; "valueOf";
   "__defineGetter__"; "__defineSetter__"; "__lookupGetter__"; "__lookupSetter__"].

(** [getImportanceScore]: [priorityMap[priority] || 0.6], for a priority that
    is not among [inheritedNames]. *)
Definition getImportanceScore (p : string) : Q :=
  if String.eqb p "high" then 1.0%Q
  else if String.eqb p "medium" then 0.6%Q
  else if String.eqb p "low" then 0.3%Q
  else 0.6%Q.

Definition complexWords : list string :=
  ["analysis"; "research"; "development"; "complex"; "detailed"].
Definition simpleWords : list string :=
  ["update"; "check"; "review"; "simple"; "quick"].

Definition assessComplexity (title : string) : Q :=
  let score := 0.5%Q in
  let score :=
    if JS.some (λ word, JS.includes (JS.toLowerCase title) word) complexWords
    then (score + 0.2)%Q else score in
  let score :=
    if JS.some (λ word, JS.includes (JS.toLowerCase title) word) simpleWords
    then (score - 0.2)%Q else score in
  Qmax 0.1 (Qmin 1.0 score).

Definition classifyTaskType (title : string) : TaskType :=
  let titleLower := JS.toLowerCase title in
  if JS.some (λ word, JS.includes titleLower word) ["code"; "develop"; "analysis"]
  then deep_work
  else if JS.some (λ word, JS.includes titleLower word) ["design"; "create"; "brainstorm"]
  then creative
  else if JS.some (λ word, JS.includes titleLower word) ["email"; "meeting"; "plan"]
  then administrative
  else routine.

Definition calculateStressCompatibility (t : Task) (stressLevel : Z) : Q :=
  let complexity := assessComplexity (title t) in
  Qmax 0.1 (1.0 - (complexity * inject_Z stressLevel / 10 * 0.7))%Q.

Definition calculateFinalPriority (t : Task) (stressLevel : Z) : Run Q :=
  urgency ← calculateDeadlineUrgency t;
  let importance := getImportanceScore (priority t) in
  let compatibility := calculateStressCompatibility t stressLevel in
  mret (urgency * 0.5 + importance * 0.3 + compatibility * 0.2)%Q.

Definition getStressImpact (level : Z) : string :=
  if 8 <=? level then "High stress significantly limits task capacity"
  else if 5 <=? level then "Moderate stress affects task selection"
  else "Low stress allows for optimal productivity".

Definition getStressActions (level : Z) : list string :=
  if 7 <=? level then ["simplify_tasks"; "add_breaks"; "postpone_non_urgent"]
  else if 4 <=? level then ["balance_tasks"; "moderate_breaks"]
  else ["challenge_optimal"; "minimal_breaks"].

(** ** The allocator: [createOptimizedScheduleFixed] *)

(** [task.analysis?.deadline_urgency || 0]. *)
Definition urgency_field (t : Task) : Q :=
  match analysis t with
  | Some a => JS.or0 (a_deadline_urgency a)
  | None => 0%Q
  end.

(** The item of the early return. *)
Definition no_slots_item (t : Task) : ScheduleItem :=
  {| task := t;
     time_block := None;
     allocated_duration := 0;
     completion_status := not_scheduled;
     scheduling_confidence := 0.0%Q;
     deadline_urgency := urgency_field t;
     notes := ["No time slots available"] |}.

(** The local state of the function body. *)
Record State : Type := mkState {
  schedule : list ScheduleItem;
  remainingTasks : list TaskRef;
  availableSlots : list Slot
}.

Definition initSlot (slot : TimeSlot) : Slot :=
  {| slot_of := slot; remaining_time := duration_minutes slot; used := false |}.

(** [remainingTasks.indexOf(task)]: the first position holding the object at
    address [a]; [None] stands for [-1]. *)
Fixpoint indexOf_from (a : nat) (l : list TaskRef) (i : nat) : option nat :=
  match l with
  | [] => None
  | x :: l' => if (x.1 =? a)%nat then Some i else indexOf_from a l' (S i)
  end.

Definition indexOf (a : nat) (l : list TaskRef) : option nat := indexOf_from a l 0%nat.

(** *** Strategy 1: perfect fit *)

(** The callback of the inner [forEach]: the accumulator is
    [(bestSlot, bestSlotIndex, bestFit)], [None] before any slot qualified
    ([bestSlot = null], [bestFit = Infinity], so that the first qualifying slot
    is always taken). *)
Definition bestFit_step (taskDuration : Z) (acc : option (Slot * nat * Z))
    (slot : Slot) (index : nat) : option (Slot * nat * Z) :=
  if negb (used slot) && (taskDuration <=? remaining_time slot) then
    let fit := remaining_time slot - taskDuration in
    match acc with
    | None => Some (slot, index, fit)
    | Some (_, _, bestFit) => if fit <? bestFit then Some (slot, index, fit) else acc
    end
  else acc.

Definition findBestFit (taskDuration : Z) (slots : list Slot) : option (Slot * nat * Z) :=
  JS.forEach (bestFit_step taskDuration) slots None.

Definition perfect_item (t : Task) (bestSlotIndex : nat) (bestSlot : Slot) : ScheduleItem :=
  {| task := t;
     time_block := Some bestSlotIndex;
     allocated_duration := estimated_duration t;
     completion_status := complete;
     scheduling_confidence := 0.9%Q;
     deadline_urgency := urgency_field t;
     notes := ["Perfect fit in " +:+ pretty (duration_minutes (slot_of bestSlot))
               +:+ "-minute slot"] |}.

(** The slot after a perfect fit: marked used when the task fills it exactly
    (its [remaining_time] is then left as it is), shortened otherwise. *)
Definition take_perfect (taskDuration : Z) (bestSlot : Slot) : Slot :=
  if remaining_time bestSlot =? taskDuration
  then {| slot_of := slot_of bestSlot;
          remaining_time := remaining_time bestSlot;
          used := true |}
  else {| slot_of := slot_of bestSlot;
          remaining_time := remaining_time bestSlot - taskDuration;
          used := used bestSlot |}.

(** The callback of the outer [forEach] of strategy 1. *)
Definition strategy1_body (tr : TaskRef) (st : State) : State :=
  let taskDuration := estimated_duration tr.2 in
  match findBestFit taskDuration (availableSlots st) with
  | Some (bestSlot, bestSlotIndex, _) =>
      {| schedule := schedule st ++ [perfect_item tr.2 bestSlotIndex bestSlot];
         availableSlots :=
           <[bestSlotIndex := take_perfect taskDuration bestSlot]> (availableSlots st);
         remainingTasks :=
           match indexOf tr.1 (remainingTasks st) with
           | Some taskIndex => JS.splice1 taskIndex (remainingTasks st)
           | None => JS.splice_last (remainingTasks st)
           end |}
  | None => st
  end.

(** [remainingTasks.forEach(...)] where the callback removes elements from
    [remainingTasks] itself: the length is read once, before the loop ([n]
    counts the indices still to visit), and the callback is invoked at index
    [k] only if the array still has an element there. After a removal at [k]
    the elements behind it have moved one position down. *)
Fixpoint strategy1_loop (n k : nat) (st : State) : State :=
  match n with
  | O => st
  | S n' =>
      match remainingTasks st !! k with
      | Some tr => strategy1_loop n' (S k) (strategy1_body tr st)
      | None => strategy1_loop n' (S k) st
      end
  end.

Definition strategy1 (st : State) : State :=
  strategy1_loop (length (remainingTasks st)) 0 st.

(** *** Strategy 2: partial scheduling or time scaling *)

(** The callback of the inner [forEach]: the accumulator is
    [(bestSlot and bestSlotIndex, maxAvailableTime)], initially [(null, 0)]. *)
Definition largest_step (acc : option (Slot * nat) * Z) (slot : Slot) (index : nat)
  : option (Slot * nat) * Z :=
  if negb (used slot) && (acc.2 <? remaining_time slot) && (15 <=? remaining_time slot)
  then (Some (slot, index), remaining_time slot)
  else acc.

Definition findLargest (slots : list Slot) : option (Slot * nat) * Z :=
  JS.forEach largest_step slots (None, 0).

Definition partial_item (t : Task) (bestSlotIndex : nat) (allocatedTime : Z)
    (isPartial isScaled : bool) : ScheduleItem :=
  let taskDuration := estimated_duration t in
  {| task := with_title (if isPartial then title t +:+ " (Partial)" else title t) t;
     time_block := Some bestSlotIndex;
     allocated_duration := allocatedTime;
     completion_status := if isPartial then partial else if isScaled then scaled else complete;
     scheduling_confidence := if isPartial then 0.6%Q else 0.8%Q;
     deadline_urgency := urgency_field t;
     notes :=
       [if isPartial
        then "Partial scheduling: " +:+ pretty allocatedTime +:+ " of "
             +:+ pretty taskDuration +:+ " minutes"
        else "Scheduled in available " +:+ pretty allocatedTime +:+ "-minute slot"] |}.

Definition unscheduled_item (t : Task) : ScheduleItem :=
  {| task := t;
     time_block := None;
     allocated_duration := 0;
     completion_status := not_scheduled;
     scheduling_confidence := 0.0%Q;
     deadline_urgency := urgency_field t;
     notes := ["No available time slots remaining - consider adding more time blocks"] |}.

(** The slot after [minutes] were taken from it; it is marked used once less
    than [floor] minutes remain. *)
Definition take_minutes (floor minutes : Z) (slot : Slot) : Slot :=
  let r := remaining_time slot - minutes in
  {| slot_of := slot_of slot;
     remaining_time := r;
     used := if r <? floor then true else used slot |}.

(** The callback of the [forEach] of strategy 2 (the array is not resized). *)
Definition strategy2_body (totalTaskTime totalAvailableTime : Z)
    (st : State) (tr : TaskRef) (_ : nat) : State :=
  let taskDuration := estimated_duration tr.2 in
  match findLargest (availableSlots st) with
  | (Some (bestSlot, bestSlotIndex), maxAvailableTime) =>
      if 0 <? maxAvailableTime then
        let allocatedTime := Z.min taskDuration maxAvailableTime in
        let isPartial := allocatedTime <? taskDuration in
        let isScaled := totalAvailableTime <? totalTaskTime in
        {| schedule :=
             schedule st ++ [partial_item tr.2 bestSlotIndex allocatedTime isPartial isScaled];
           availableSlots :=
             <[bestSlotIndex := take_minutes 15 allocatedTime bestSlot]> (availableSlots st);
           remainingTasks := remainingTasks st |}
      else
        {| schedule := schedule st ++ [unscheduled_item tr.2];
           availableSlots := availableSlots st;
           remainingTasks := remainingTasks st |}
  | (None, _) =>
      {| schedule := schedule st ++ [unscheduled_item tr.2];
         availableSlots := availableSlots st;
         remainingTasks := remainingTasks st |}
  end.

Definition strategy2 (totalTaskTime totalAvailableTime : Z) (st : State) : State :=
  JS.forEach (strategy2_body totalTaskTime totalAvailableTime) (remainingTasks st) st.

(** *** Strategy 3: squeeze in unscheduled high-priority tasks *)

(** The predicate of [schedule.filter(...)]. *)
Definition rescue_pred (item : ScheduleItem) : bool :=
  bool_decide (completion_status item = not_scheduled) &&
  (String.eqb (priority (task item)) "high" || JS.Qgt_bool (deadline_urgency item) 0.8).

(** [schedule.filter(p)] yields an array of references to the selected item
    objects: their indices in [schedule]. *)
Fixpoint filter_refs_from (p : ScheduleItem → bool) (l : list ScheduleItem) (i : nat)
  : list nat :=
  match l with
  | [] => []
  | x :: l' => if p x then i :: filter_refs_from p l' (S i) else filter_refs_from p l' (S i)
  end.

Definition filter_refs (p : ScheduleItem → bool) (l : list ScheduleItem) : list nat :=
  filter_refs_from p l 0%nat.

Definition emergency_item (item : ScheduleItem) (slotIndex : nat) (allocatedTime : Z)
  : ScheduleItem :=
  {| task := task item;
     time_block := Some slotIndex;
     allocated_duration := allocatedTime;
     completion_status :=
       if allocatedTime <? estimated_duration (task item) then partial else scaled;
     scheduling_confidence := 0.5%Q;
     deadline_urgency := deadline_urgency item;
     notes := ["Emergency scheduling: " +:+ pretty allocatedTime
               +:+ " minutes for high-priority task"] |}.

Definition rescue_slot (slot : Slot) : bool :=
  negb (used slot) && (10 <=? remaining_time slot).

(** The callback of [unscheduledHighPriority.forEach(...)]: [ref] is the
    reference to an item of [schedule], which is updated in place, as is the
    slot found. *)
Definition strategy3_body (st : State) (ref : nat) : State :=
  match schedule st !! ref with
  | Some item =>
      match JS.find rescue_slot (availableSlots st) with
      | Some (slotIndex, smallestSlot) =>
          let allocatedTime :=
            Z.min (estimated_duration (task item)) (remaining_time smallestSlot) in
          {| schedule := <[ref := emergency_item item slotIndex allocatedTime]> (schedule st);
             availableSlots :=
               <[slotIndex := take_minutes 10 allocatedTime smallestSlot]> (availableSlots st);
             remainingTasks := remainingTasks st |}
      | None => st
      end
  | None => st
  end.

(** The [forEach] is guarded by [unscheduledHighPriority.length > 0]; over an
    empty array it does nothing anyway. *)
Definition strategy3 (st : State) : State :=
  foldl strategy3_body st (filter_refs rescue_pred (schedule st)).

(** *** The function *)

Definition totalTaskTime (tasks : list TaskRef) : Z :=
  foldl (λ sum tr, sum + estimated_duration tr.2) 0 tasks.

Definition totalAvailableTime (timeSlots : list TimeSlot) : Z :=
  foldl (λ sum slot, sum + duration_minutes slot) 0 timeSlots.

(** The state of the body when it returns, on the path past the guard. *)
Definition final_state (tasks : list TaskRef) (timeSlots : list TimeSlot) : State :=
  let st0 := {| schedule := [];
                remainingTasks := tasks;
                availableSlots := map initSlot timeSlots |} in
  strategy3
    (strategy2 (totalTaskTime tasks) (totalAvailableTime timeSlots)
       (strategy1 st0)).

(** [!tasks.length || !timeSlots.length]. *)
Definition nothing_to_do (tasks : list TaskRef) (timeSlots : list TimeSlot) : bool :=
  (length tasks =? 0)%nat || (length timeSlots =? 0)%nat.

Definition createOptimizedScheduleFixed (tasks : list TaskRef) (timeSlots : list TimeSlot)
    (stressLevel : Z) (mood : string) : list ScheduleItem :=
  if nothing_to_do tasks timeSlots
  then map (λ tr, no_slots_item tr.2) tasks
  else schedule (final_state tasks timeSlots).

(** The slot objects that the [time_block] references of the returned items
    point to, as they are when the function returns. *)
Definition slots_after (tasks : list TaskRef) (timeSlots : list TimeSlot) : list Slot :=
  if nothing_to_do tasks timeSlots
  then []
  else availableSlots (final_state tasks timeSlots).

(** ** [generateRecommendations] *)

Definition count {A} (p : A → bool) (l : list A) : nat := length (List.filter p l).

Definition generateRecommendations (sched : list ScheduleItem) (stressLevel : Z) : list string :=
  let unscheduled := count (λ item, bool_decide (completion_status item = not_scheduled)) sched in
  let partials := count (λ item, bool_decide (completion_status item = partial)) sched in
  let scheduled := count (λ item, 0 <? allocated_duration item) sched in
  (if (scheduled =? length sched)%nat
   then ["All tasks successfully scheduled!"]
   else
     (if (0 <? unscheduled)%nat
      then [pretty unscheduled
            +:+ " tasks need additional time slots - consider extending your schedule"]
      else [])
     ++
     (if (0 <? partials)%nat
      then [pretty partials +:+ " tasks are partially scheduled - plan follow-up sessions"]
      else []))
  ++
  (if 7 <=? stressLevel
   then ["High stress detected - take breaks between tasks"]
   else []).

(** ** [processScheduleLocally] *)

(** The callback of [tasks.map(...)]: a new object, at a new address (one per
    index), with the fields of the task and its analysis. The urgency is
    computed twice, once for [deadline_urgency] and once inside
    [calculateFinalPriority]; each computation reads the clock. *)
Definition analyse (stressLevel : Z) (t : Task) (index : nat) : Run TaskRef :=
  urgency ← calculateDeadlineUrgency t;
  final ← calculateFinalPriority t stressLevel;
  mret (index,
        with_analysis
          {| a_deadline_urgency := urgency;
             importance_score := getImportanceScore (priority t);
             complexity_score := assessComplexity (title t);
             task_type := classifyTaskType (title t);
             ai_confidence := 0.85%Q;
             stress_compatibility := calculateStressCompatibility t stressLevel;
             final_priority := final |}
          t).

(** [a.analysis.final_priority] of an analysed task object. *)
Definition final_priority_of (tr : TaskRef) : Q :=
  match analysis tr.2 with
  | Some a => final_priority a
  | None => 0%Q
  end.

(** [analyzedTasks.sort((a, b) => b.final_priority - a.final_priority)]: the
    sort of the language is stable, so the result is the stable arrangement by
    descending final priority; insertion from the right computes it. An
    element goes in front of the elements whose priority is not greater. *)
Fixpoint insert_desc (a : TaskRef) (l : list TaskRef) : list TaskRef :=
  match l with
  | [] => [a]
  | b :: l' =>
      if Qle_bool (final_priority_of b) (final_priority_of a)
      then a :: b :: l'
      else b :: insert_desc a l'
  end.

Definition sort_desc (l : list TaskRef) : list TaskRef := foldr insert_desc [] l.

Record StressAnalysis : Type := mkStressAnalysis {
  level : Z;
  impact : string;
  recommended_actions : list string
}.

Record TaskAnalysis : Type := mkTaskAnalysis {
  total_tasks : nat;
  scheduled_tasks : nat
}.

Record SchedulingSummary : Type := mkSummary {
  total_work_hours : Q;
  average_scheduling_confidence : Q
}.

Record Insights : Type := mkInsights {
  scheduling_summary : SchedulingSummary;
  mood_optimization : string;
  recommendations : list string
}.

(** [generated_at] is kept as the time value read; the source renders it with
    [toISOString]. *)
Record AIMetadata : Type := mkMetadata {
  ai_enabled : bool;
  analysis_method : string;
  generated_at : Z
}.

(** The returned object. [slot_objects] is the store of the slot objects that
    the [time_block] references of [optimized_schedule] point to. *)
Record ScheduleResult : Type := mkResult {
  optimized_schedule : list ScheduleItem;
  slot_objects : list Slot;
  stress_analysis : StressAnalysis;
  task_analysis : TaskAnalysis;
  insights : Insights;
  ai_metadata : AIMetadata
}.

(** [schedule.reduce((total, item) => total + (item.allocated_duration || 0), 0)]. *)
Definition total_minutes (sched : list ScheduleItem) : Z :=
  foldl (λ total item, total + allocated_duration item) 0 sched.

Definition processScheduleLocally (tasks : list Task) (timeSlots : list TimeSlot)
    (stressLevel : Z) (mood : string) : Run ScheduleResult :=
  analyzedTasks ← mapM_from (analyse stressLevel) tasks 0%nat;
  let analyzedTasks := sort_desc analyzedTasks in
  let sched := createOptimizedScheduleFixed analyzedTasks timeSlots stressLevel mood in
  now ← new_Date;
  mret {| optimized_schedule := sched;
          slot_objects := slots_after analyzedTasks timeSlots;
          stress_analysis :=
            {| level := stressLevel;
               impact := getStressImpact stressLevel;
               recommended_actions := getStressActions stressLevel |};
          task_analysis :=
            {| total_tasks := length tasks;
               scheduled_tasks := count (λ item, 0 <? allocated_duration item) sched |};
          insights :=
            {| scheduling_summary :=
                 {| total_work_hours :=
                      (inject_Z (total_minutes sched) / 60)%Q;
                    average_scheduling_confidence := 0.85%Q |};
               mood_optimization := "Schedule optimized for " +:+ mood +:+ " mood state";
               recommendations := generateRecommendations sched stressLevel |};
          ai_metadata :=
            {| ai_enabled := true;
               analysis_method := "Local AI Agent - Fixed";
               generated_at := now |} |}.

(** The array [analyzedTasks] before it is sorted. *)
Definition analysed (tasks : list Task) (stressLevel : Z) (clock : Clock) : list TaskRef :=
  (mapM_from (analyse stressLevel) tasks 0%nat clock 0%nat).1.

(** [StressCoachApp.validateInputs], the check that the user interface makes
    before it asks for a schedule: [false] (a message is shown and nothing is
    scheduled) when there is no task or no time slot. *)
Definition validateInputs (tasks : list Task) (timeSlots : list TimeSlot) : bool :=
  if (length tasks =? 0)%nat then false
  else if (length timeSlots =? 0)%nat then false
  else true.

(** The result of a call under a given clock. *)
Definition call (tasks : list Task) (timeSlots : list TimeSlot)
    (stressLevel : Z) (mood : string) (clock : Clock) : ScheduleResult :=
  (processScheduleLocally tasks timeSlots stressLevel mood clock 0%nat).1.

(** ** Vocabulary of the statements *)

(** A slot qualifies for a perfect fit of [d] minutes. *)
Definition fits (d : Z) (s : Slot) : Prop := used s = false ∧ d ≤ remaining_time s.

(** What [findBestFit] computes on the slots seen so far. *)
Definition best_fit_of (d : Z) (slots : list Slot) (r : option (Slot * nat * Z)) : Prop :=
  match r with
  | None => ∀ j s, slots !! j = Some s → ¬ fits d s
  | Some (s, j, fit) =>
      slots !! j = Some s ∧ fits d s ∧ fit = remaining_time s - d ∧
      ∀ j' s', slots !! j' = Some s' → fits d s' →
        fit ≤ remaining_time s' - d ∧ (remaining_time s' - d = fit → (j ≤ j')%nat)
  end.

(** A slot qualifies for strategy 2. *)
Definition roomy (s : Slot) : Prop := used s = false ∧ 15 ≤ remaining_time s.

(** What [findLargest] computes on the slots seen so far: the first slot of
    the largest remaining time among the qualifying ones. *)
Definition largest_of (slots : list Slot) (r : option (Slot * nat) * Z) : Prop :=
  match r with
  | (None, m) => m = 0 ∧ ∀ j s, slots !! j = Some s → ¬ roomy s
  | (Some (s, j), m) =>
      slots !! j = Some s ∧ roomy s ∧ m = remaining_time s ∧
      ∀ j' s', slots !! j' = Some s' → roomy s' →
        remaining_time s' ≤ m ∧ (remaining_time s' = m → (j ≤ j')%nat)
  end.

(** The minutes that an item takes from the slot object [j]. *)
Definition allocated_in (j : nat) (item : ScheduleItem) : Z :=
  if decide (time_block item = Some j) then allocated_duration item else 0.

(** The sum of [allocated_duration] over the items whose [time_block] is the
    slot object [j]. *)
Definition window_load (j : nat) (sched : list ScheduleItem) : Z :=
  foldr (λ item acc, allocated_in j item + acc) 0 sched.

(** The bookkeeping of the slots agrees with the schedule: the slot objects are
    those of the input, no slot carries more than its duration, and a slot not
    marked used has exactly its unallocated minutes remaining. *)
Definition conserving (timeSlots : list TimeSlot) (st : State) : Prop :=
  length (availableSlots st) = length timeSlots ∧
  (∀ j s, availableSlots st !! j = Some s →
     timeSlots !! j = Some (slot_of s) ∧
     window_load j (schedule st) ≤ duration_minutes (slot_of s) ∧
     (used s = false →
      window_load j (schedule st) + remaining_time s = duration_minutes (slot_of s))) ∧
  Forall (λ item, completion_status item = not_scheduled → time_block item = None)
    (schedule st).

(** The urgency of a task when the clock reads [now]. *)
Definition urgency_at (t : Task) (now : Z) : Q :=
  match deadline t with
  | None => 0.2%Q
  | Some d => urgency_of_hours (hoursUntil d now)
  end.

(** The number of clock readings of one urgency computation. *)
Definition reads (t : Task) : nat :=
  match deadline t with
  | Some _ => 1%nat
  | None => 0%nat
  end.

(** The analysis of a task whose urgency was read as [u] for the
    [deadline_urgency] field and as [u'] inside [calculateFinalPriority]. *)
Definition analysis_of (stressLevel : Z) (t : Task) (u u' : Q) : Analysis :=
  {| a_deadline_urgency := u;
     importance_score := getImportanceScore (priority t);
     complexity_score := assessComplexity (title t);
     task_type := classifyTaskType (title t);
     ai_confidence := 0.85%Q;
     stress_compatibility := calculateStressCompatibility t stressLevel;
     final_priority :=
       (u' * 0.5 + getImportanceScore (priority t) * 0.3
        + calculateStressCompatibility t stressLevel * 0.2)%Q |}.

(** The state in which strategy 3 starts. *)
Definition after_strategy2 (tasks : list TaskRef) (timeSlots : list TimeSlot) : State :=
  strategy2 (totalTaskTime tasks) (totalAvailableTime timeSlots)
    (strategy1 {| schedule := [];
                  remainingTasks := tasks;
                  availableSlots := map initSlot timeSlots |}).

(** The state of strategy 3 when the turn of the item at position [r] of the
    schedule comes: the callback has run on the selected items in front of
    it. *)
Definition turn_state (st : State) (r : nat) : State :=
  foldl strategy3_body st (filter_refs rescue_pred (take r (schedule st))).

(** The item was written by strategy 1 for the task object [tr]. *)
Definition fitted_item (tr : TaskRef) (item : ScheduleItem) : Prop :=
  ∃ j s, item = perfect_item tr.2 j s.

(** The item holds the task object [tr], or its copy retitled as partial. *)
Definition item_for (tr : TaskRef) (item : ScheduleItem) : Prop :=
  task item = tr.2 ∨ task item = with_title (title tr.2 +:+ " (Partial)") tr.2.

(** The object [tr] is the analysed copy of the input task [t]. *)
Definition analysed_from (stressLevel : Z) (t : Task) (tr : TaskRef) : Prop :=
  ∃ u u', tr.2 = with_analysis (analysis_of stressLevel t u u') t.

(** The object [tr] is a copy of the input task [t] with an analysis added. *)
Definition analysed_copy (t : Task) (tr : TaskRef) : Prop :=
  ∃ a, tr.2 = with_analysis a t.

(** The item was written for the task object [tr] by strategy 2 or by
    strategy 3: with confidence 0.6 it is partial and holds a copy of the
    object retitled as partial; otherwise its confidence is 0.8, 0.5 or 0.0
    and it holds the fields of the object as they are. *)
Definition later_item (tr : TaskRef) (item : ScheduleItem) : Prop :=
  (scheduling_confidence item = 0.6%Q ∧ completion_status item = partial ∧
   task item = with_title (title tr.2 +:+ " (Partial)") tr.2) ∨
  (scheduling_confidence item ∈ [0.8; 0.5; 0.0]%Q ∧ task item = tr.2).

(** The schedule holds one item per object of the array [tasks]: first the
    perfect fits of strategy 1, then the items of the other tasks, each group
    in the order its tasks have in [tasks]. *)
Definition grouped (tasks : list TaskRef) (sched : list ScheduleItem) : Prop :=
  ∃ fitted others l1 l2,
    sublist fitted tasks ∧ sublist others tasks ∧ fitted ++ others ≡ₚ tasks ∧
    sched = l1 ++ l2 ∧ Forall2 fitted_item fitted l1 ∧ Forall2 later_item others l2.

(** *** Concrete inputs *)

(** A task as [parseTasksInput] builds it. *)
Definition task_of (i ttl : string) (minutes : Z) (prio : string)
    (due : option DateValue) : Task :=
  {| id := i;
     title := ttl;
     description := "Task: " +:+ ttl;
     estimated_duration := minutes;
     priority := prio;
     category := "work";
     is_flexible := true;
     deadline := due;
     analysis := None |}.

(** A time slot of the given length that starts at nine. *)
Definition slot_of_minutes (minutes : Z) : TimeSlot :=
  {| start_time := "2026-01-01T09:00:00";
     end_time := "";
     duration_minutes := minutes;
     is_available := true;
     label := "Time slot 1" |}.

Definition hour_ms : Z := 1000 * 60 * 60.

(** A clock that stands at the epoch, and one that stands two hours later. *)
Definition epoch : Clock := λ _, 0.
Definition two_hours_later : Clock := λ _, 2 * hour_ms.

(** Two tasks of equal priority and thirty minutes each. *)
Definition two_half_hours : list Task :=
  [task_of "a" "Task A" 30 "medium" None; task_of "b" "Task B" 30 "medium" None].

(** A long and a short task, both of high priority. *)
Definition long_and_short : list Task :=
  [task_of "a" "Task A" 50 "high" None; task_of "b" "Task B" 10 "high" None].

(** A task of low priority in front of a task of high priority. *)
Definition low_then_high : list Task :=
  [task_of "a" "Task A" 60 "low" None; task_of "b" "Task B" 60 "high" None].

(** One task of sixty minutes and high priority without a deadline; the same
    task due in two hours, due in seven hours, and with a deadline that is not
    a date. *)
Definition one_hour_task : list Task := [task_of "a" "Task A" 60 "high" None].
Definition due_in_two_hours : list Task :=
  [task_of "a" "Task A" 60 "high" (Some (TimeValue (2 * hour_ms)))].
Definition due_in_seven_hours : list Task :=
  [task_of "a" "Task A" 60 "high" (Some (TimeValue (7 * hour_ms)))].
Definition no_date : Task := task_of "a" "Task A" 60 "high" (Some InvalidDate).

Definition due_in_twenty_hours : list Task :=
  [task_of "a" "Task A" 60 "high" (Some (TimeValue (20 * hour_ms)))].

(** Arrays of task objects as the allocator receives them. *)
Definition refs_of (tasks : list Task) : list TaskRef := imap (λ i t, (i, t)) tasks.

(** The arithmetic mean of the confidences of the items. *)
Definition mean_confidence (sched : list ScheduleItem) : Q :=
  (foldr (λ item acc, scheduling_confidence item + acc) 0 sched
   / inject_Z (Z.of_nat (length sched)))%Q.

(** The confidences that the strategies assign. *)
Definition confidence_levels : list Q := [0.0; 0.5; 0.6; 0.8; 0.9]%Q.

(** ** Vocabulary of the further statements *)

(** The shape of an item by its status, when the slots are numbered below
    [n]. *)
Definition item_shape (n : nat) (item : ScheduleItem) : Prop :=
  deadline_urgency item = urgency_field (task item) ∧
  match completion_status item with
  | not_scheduled =>
      time_block item = None ∧ allocated_duration item = 0 ∧
      scheduling_confidence item = 0.0%Q
  | complete =>
      (∃ j, time_block item = Some j ∧ (j < n)%nat) ∧
      allocated_duration item = estimated_duration (task item) ∧
      (scheduling_confidence item = 0.9%Q ∨ scheduling_confidence item = 0.8%Q)
  | partial =>
      (∃ j, time_block item = Some j ∧ (j < n)%nat) ∧
      allocated_duration item < estimated_duration (task item) ∧
      ((scheduling_confidence item = 0.6%Q ∧ 15 ≤ allocated_duration item) ∨
       (scheduling_confidence item = 0.5%Q ∧ 10 ≤ allocated_duration item))
  | scaled =>
      (∃ j, time_block item = Some j ∧ (j < n)%nat) ∧
      allocated_duration item = estimated_duration (task item) ∧
      (scheduling_confidence item = 0.8%Q ∨ scheduling_confidence item = 0.5%Q)
  end.

(** The sum of [f j] over the indices [js]. *)
Definition sum_over (f : nat → Z) (js : list nat) : Z :=
  foldr (λ j acc, f j + acc) 0 js.

(** The minutes that the input tasks ask for. *)
Definition requested_minutes (tasks : list Task) : Z :=
  foldl (λ sum t, sum + estimated_duration t) 0 tasks.

(** The minutes that the task objects of an array ask for. *)
Definition asked (trs : list TaskRef) : Z :=
  foldr (λ tr acc, estimated_duration tr.2 + acc) 0 trs.

(** The title contains one of the words, whatever the case of its letters. *)
Definition mentions (words : list string) (title : string) : bool :=
  JS.some (λ word, JS.includes (JS.toLowerCase title) word) words.


(** *** The display *)

(** [Math.round(n / d)] for integers [n] and [d > 0]: the nearest integer, a
    half going up. *)
Definition round_div (n d : Z) : Z := (2 * n + d) / (2 * d).

(** [calculateSlotDuration], on the dates that [new Date] gives for its two
    strings ([new Date] of a string never throws, so the [catch] branch is not
    reachable). [None] is [NaN], which the subtraction gives for an invalid
    date and which [Math.round] and [Math.max] hand on. *)
Definition calculateSlotDuration (startTime endTime : DateValue) : option Z :=
  match startTime, endTime with
  | TimeValue start, TimeValue end_ => Some (Z.max 0 (round_div (end_ - start) (1000 * 60)))
  | _, _ => None
  end.

(** The minutes that [renderScheduleItem] shows as allocated, its variable
    [actualDuration]. [slots] is the store of the slot objects, [parse] is
    [new Date] on the strings of a slot, and [None] is [NaN]
    ([item.allocated_duration || 0] is the number itself). *)
Definition actualDuration (parse : string → DateValue) (slots : list Slot)
    (item : ScheduleItem) (isUnscheduled : bool) : option Z :=
  let actualDuration := allocated_duration item in
  match time_block item with
  | Some j =>
      if isUnscheduled then Some actualDuration
      else
        timeBlock ← slots !! j;
        slotDuration ←
          (if duration_minutes (slot_of timeBlock) =? 0
           then calculateSlotDuration (parse (start_time (slot_of timeBlock)))
                  (parse (end_time (slot_of timeBlock)))
           else Some (duration_minutes (slot_of timeBlock)));
        Some (Z.min actualDuration slotDuration)
  | None => Some actualDuration
  end.

(** The urgency badge of [renderScheduleItem], by its text; [None] when the
    item is shown without one. *)
Inductive UrgencyBadge : Type := URGENT | MEDIUM | LOW_PRIORITY.

Definition urgencyBadge (item : ScheduleItem) : option UrgencyBadge :=
  let urgency := JS.or0 (deadline_urgency item) in
  if JS.Qgt_bool urgency 0.8 then Some URGENT
  else if JS.Qgt_bool urgency 0.5 then Some MEDIUM
  else if JS.Qgt_bool urgency 0.2 then Some LOW_PRIORITY
  else None.

(** Membership in an explicit list. *)
Ltac in_levels :=
  unfold confidence_levels;
  repeat first [apply list_elem_of_here | apply list_elem_of_further].

(** * Properties *)

(** ** The searches *)

Section Searches.

Lemma list_lookup_snoc_inv {A} (l : list A) (x : A) (j : nat) (y : A) :
  (l ++ [x]) !! j = Some y → l !! j = Some y ∨ (j = length l ∧ y = x).
Proof.
  intros H. destruct (decide (j < length l)%nat) as [Hlt|Hge].
  - left. by rewrite lookup_app_l in H.
  - right. rewrite lookup_app_r in H by lia.
    destruct (j - length l)%nat as [|m] eqn:E; simpl in H; [|done].
    split; [lia | congruence].
Qed.

Lemma bestFit_step_spec d pre acc x :
  best_fit_of d pre acc →
  best_fit_of d (pre ++ [x]) (bestFit_step d acc x (length pre)).
Proof.
  intros Hacc. unfold bestFit_step.
  assert ((pre ++ [x]) !! length pre = Some x) as Hlast.
  { rewrite lookup_app_r by lia. by rewrite Nat.sub_diag. }
  destruct (negb (used x) && (d <=? remaining_time x)) eqn:Hq.
  - apply andb_true_iff in Hq as [Hu Hd].
    apply negb_true_iff in Hu. apply Z.leb_le in Hd.
    destruct acc as [[[s j] fit]|]; simpl in *.
    + destruct Hacc as (Hj & Hs & Hfit & Hmin).
      destruct (remaining_time x - d <? fit) eqn:Hlt.
      * apply Z.ltb_lt in Hlt. split; [done|]. split; [done|]. split; [done|].
        intros j' s' H Hf.
        apply list_lookup_snoc_inv in H as [H|[-> ->]]; [|lia].
        destruct (Hmin _ _ H Hf). lia.
      * apply Z.ltb_ge in Hlt. split.
        { rewrite lookup_app_l; [done|]. by eapply lookup_lt_Some. }
        split; [done|]. split; [done|].
        intros j' s' H Hf.
        apply list_lookup_snoc_inv in H as [H|[-> ->]].
        -- by apply Hmin.
        -- apply lookup_lt_Some in Hj. lia.
    + split; [done|]. split; [done|]. split; [done|].
      intros j' s' H Hf.
      apply list_lookup_snoc_inv in H as [H|[-> ->]]; [|lia].
      by destruct (Hacc _ _ H).
  - assert (¬ fits d x) as Hx.
    { intros [Hu Hd]. rewrite Hu in Hq. simpl in Hq. apply Z.leb_gt in Hq. lia. }
    destruct acc as [[[s j] fit]|]; simpl in *.
    + destruct Hacc as (Hj & Hs & Hfit & Hmin). split.
      { rewrite lookup_app_l; [done|]. by eapply lookup_lt_Some. }
      split; [done|]. split; [done|].
      intros j' s' H Hf.
      apply list_lookup_snoc_inv in H as [H|[-> ->]]; [|done].
      by apply Hmin.
    + intros j s H. apply list_lookup_snoc_inv in H as [H|[-> ->]]; [|done].
      apply (Hacc _ _ H).
Qed.

Lemma bestFit_from_spec d l : ∀ pre acc,
  best_fit_of d pre acc →
  best_fit_of d (pre ++ l) (JS.forEach_from (bestFit_step d) l (length pre) acc).
Proof.
  induction l as [|x l IH]; intros pre acc Hacc; simpl.
  - by rewrite app_nil_r.
  - replace (pre ++ x :: l) with ((pre ++ [x]) ++ l) by by rewrite <- app_assoc.
    replace (S (length pre)) with (length (pre ++ [x])) by (rewrite length_app; simpl; lia).
    apply IH. by apply bestFit_step_spec.
Qed.

Lemma findBestFit_spec d slots : best_fit_of d slots (findBestFit d slots).
Proof.
  apply (bestFit_from_spec d slots [] None). intros j s H. by destruct j.
Qed.

Lemma largest_step_spec pre acc x :
  largest_of pre acc → largest_of (pre ++ [x]) (largest_step acc x (length pre)).
Proof.
  intros Hacc. unfold largest_step.
  assert ((pre ++ [x]) !! length pre = Some x) as Hlast.
  { rewrite lookup_app_r by lia. by rewrite Nat.sub_diag. }
  destruct (negb (used x) && (acc.2 <? remaining_time x) && (15 <=? remaining_time x)) eqn:Hq.
  - apply andb_true_iff in Hq as [Hq H15]. apply andb_true_iff in Hq as [Hu Hm].
    apply negb_true_iff in Hu. apply Z.leb_le in H15. apply Z.ltb_lt in Hm.
    simpl. split; [done|]. split; [done|]. split; [done|].
    intros j' s' H Hr. apply list_lookup_snoc_inv in H as [H|[-> ->]]; [|lia].
    destruct acc as [[[s j]|] m]; simpl in *.
    + destruct Hacc as (_ & _ & _ & Hmax). destruct (Hmax _ _ H Hr). lia.
    + destruct Hacc as [_ Hnone]. by destruct (Hnone _ _ H).
  - assert (roomy x → remaining_time x ≤ acc.2) as Hx.
    { intros [Hu H15]. rewrite Hu in Hq. simpl in Hq.
      apply Z.leb_le in H15. rewrite H15, andb_true_r in Hq.
      by apply Z.ltb_ge in Hq. }
    destruct acc as [[[s j]|] m]; simpl in *.
    + destruct Hacc as (Hj & Hs & Hm & Hmax). split.
      { rewrite lookup_app_l; [done|]. by eapply lookup_lt_Some. }
      split; [done|]. split; [done|].
      intros j' s' H Hr. apply list_lookup_snoc_inv in H as [H|[-> ->]].
      * by apply Hmax.
      * split; [by apply Hx|]. apply lookup_lt_Some in Hj. lia.
    + destruct Hacc as [-> Hnone]. split; [done|].
      intros j s H Hr. apply list_lookup_snoc_inv in H as [H|[-> ->]].
      * by apply (Hnone _ _ H).
      * specialize (Hx Hr). destruct Hr. lia.
Qed.

Lemma largest_from_spec l : ∀ pre acc,
  largest_of pre acc →
  largest_of (pre ++ l) (JS.forEach_from largest_step l (length pre) acc).
Proof.
  induction l as [|x l IH]; intros pre acc Hacc; simpl.
  - by rewrite app_nil_r.
  - replace (pre ++ x :: l) with ((pre ++ [x]) ++ l) by by rewrite <- app_assoc.
    replace (S (length pre)) with (length (pre ++ [x])) by (rewrite length_app; simpl; lia).
    apply IH. by apply largest_step_spec.
Qed.

Lemma findLargest_spec slots : largest_of slots (findLargest slots).
Proof.
  apply (largest_from_spec slots [] (None, 0)). split; [done|].
  intros j s H. by destruct j.
Qed.

(** [find]: the first element that satisfies the predicate. *)
Lemma find_from_Some {A} (p : A → bool) l : ∀ i j x,
  JS.find_from p l i = Some (j, x) →
  (i ≤ j)%nat ∧ l !! (j - i)%nat = Some x ∧ p x = true ∧
  ∀ k y, (k < j - i)%nat → l !! k = Some y → p y = false.
Proof.
  induction l as [|a l IH]; intros i j x H; simpl in H; [done|].
  destruct (p a) eqn:Hp.
  - injection H as <- <-. rewrite Nat.sub_diag. repeat split; auto. lia.
  - apply IH in H as (Hle & Hl & Hx & Hbefore).
    split; [lia|]. replace (j - i)%nat with (S (j - S i)) by lia.
    repeat split; auto.
    intros [|k] y Hk Hy; simpl in Hy; [congruence|].
    apply (Hbefore k); [lia | done].
Qed.

Lemma find_Some {A} (p : A → bool) l j x :
  JS.find p l = Some (j, x) →
  l !! j = Some x ∧ p x = true ∧ ∀ k y, (k < j)%nat → l !! k = Some y → p y = false.
Proof.
  intros H. apply find_from_Some in H. rewrite Nat.sub_0_r in H. tauto.
Qed.

Lemma find_from_None {A} (p : A → bool) l : ∀ i,
  JS.find_from p l i = None → ∀ k y, l !! k = Some y → p y = false.
Proof.
  induction l as [|a l IH]; intros i H k y Hk; simpl in H; [done|].
  destruct (p a) eqn:Hp; [done|].
  destruct k as [|k]; simpl in Hk; [congruence|]. by eapply IH.
Qed.

Lemma find_None {A} (p : A → bool) l :
  JS.find p l = None → ∀ k y, l !! k = Some y → p y = false.
Proof. apply find_from_None. Qed.

End Searches.

(** ** Induction principles for the three strategies *)

Section Strategies.

Lemma forEach_from_ind {A St} (P : St → Prop) (f : St → A → nat → St) (l : list A) :
  (∀ s x i, P s → x ∈ l → P (f s x i)) →
  ∀ i s, P s → P (JS.forEach_from f l i s).
Proof.
  induction l as [|x l IH]; intros Hf i s Hs; simpl; [done|].
  apply IH.
  - intros s' y j Hs' Hy. apply Hf; [done|]. by right.
  - apply Hf; [done|]. by left.
Qed.

(** Strategy 1: whatever the indices visited, a property kept by the callback
    is kept by the loop. *)
Lemma strategy1_loop_ind (P : State → Prop) :
  (∀ st k tr, P st → remainingTasks st !! k = Some tr → P (strategy1_body tr st)) →
  ∀ n k st, P st → P (strategy1_loop n k st).
Proof.
  intros Hbody. induction n as [|n IH]; intros k st Hst; simpl; [done|].
  destruct (remainingTasks st !! k) as [tr|] eqn:E; apply IH; [|done].
  by eapply Hbody.
Qed.

Lemma strategy2_body_remaining T A st tr i :
  remainingTasks (strategy2_body T A st tr i) = remainingTasks st.
Proof.
  unfold strategy2_body.
  destruct (findLargest _) as [[[s j]|] m]; [destruct (0 <? m)|]; done.
Qed.

Lemma strategy2_ind (P : State → Prop) T A :
  (∀ st tr i, P st → tr ∈ remainingTasks st → P (strategy2_body T A st tr i)) →
  ∀ st, P st → P (strategy2 T A st).
Proof.
  intros Hbody st Hst. unfold strategy2, JS.forEach.
  cut (P (JS.forEach_from (strategy2_body T A) (remainingTasks st) 0 st) ∧
       remainingTasks (JS.forEach_from (strategy2_body T A) (remainingTasks st) 0 st)
       = remainingTasks st); [by intros [H _]|].
  apply (forEach_from_ind (λ s, P s ∧ remainingTasks s = remainingTasks st)); [|done].
  intros s x i [Hs Hrem] Hx. split.
  - apply Hbody; [done|]. by rewrite Hrem.
  - by rewrite strategy2_body_remaining.
Qed.

(** The references selected by [filter]. *)
Lemma filter_refs_from_spec p l : ∀ i r,
  r ∈ filter_refs_from p l i →
  (i ≤ r)%nat ∧ ∃ x, l !! (r - i)%nat = Some x ∧ p x = true.
Proof.
  induction l as [|a l IH]; intros i r Hr; simpl in Hr.
  - by apply elem_of_nil in Hr.
  - assert (r ∈ filter_refs_from p l (S i) →
            (i ≤ r)%nat ∧ ∃ x, (a :: l) !! (r - i)%nat = Some x ∧ p x = true) as Htail.
    { intros H. apply IH in H as (Hle & x & Hx & Hp). split; [lia|].
      exists x. replace (r - i)%nat with (S (r - S i)) by lia. done. }
    destruct (p a) eqn:Hp; [|by apply Htail].
    apply elem_of_cons in Hr as [->|Hr]; [|by apply Htail].
    split; [lia|]. exists a. by rewrite Nat.sub_diag.
Qed.

Lemma filter_refs_spec p l r :
  r ∈ filter_refs p l → ∃ x, l !! r = Some x ∧ p x = true.
Proof.
  intros H. apply filter_refs_from_spec in H as (_ & x & Hx & Hp).
  rewrite Nat.sub_0_r in Hx. eauto.
Qed.

Lemma filter_refs_from_NoDup p l : ∀ i, NoDup (filter_refs_from p l i).
Proof.
  induction l as [|a l IH]; intros i; simpl; [constructor|].
  destruct (p a); [|done]. constructor; [|done].
  intros H. apply filter_refs_from_spec in H as [H _]. lia.
Qed.

Lemma strategy3_body_other st r r' :
  r ≠ r' → schedule (strategy3_body st r) !! r' = schedule st !! r'.
Proof.
  intros Hne. unfold strategy3_body.
  destruct (schedule st !! r) as [item|]; [|done].
  destruct (JS.find rescue_slot (availableSlots st)) as [[j s]|]; [|done].
  simpl. by rewrite list_lookup_insert_ne.
Qed.

Lemma strategy3_refs_ind (P : State → Prop) :
  (∀ st ref item, P st → schedule st !! ref = Some item → rescue_pred item = true →
     P (strategy3_body st ref)) →
  ∀ refs st, NoDup refs →
    (∀ r, r ∈ refs → ∃ item, schedule st !! r = Some item ∧ rescue_pred item = true) →
    P st → P (foldl strategy3_body st refs).
Proof.
  intros Hbody. induction refs as [|r refs IH]; intros st Hnd Hrefs Hst; simpl; [done|].
  apply NoDup_cons in Hnd as [Hr Hnd].
  destruct (Hrefs r) as (item & Hitem & Hp); [by left|].
  apply IH; [done| |by eapply Hbody].
  intros r' Hr'. rewrite strategy3_body_other.
  - apply Hrefs. by right.
  - intros ->. done.
Qed.

(** Strategy 3: a property kept by the callback on an item that the filter
    selected is kept by the loop. *)
Lemma strategy3_ind (P : State → Prop) :
  (∀ st ref item, P st → schedule st !! ref = Some item → rescue_pred item = true →
     P (strategy3_body st ref)) →
  ∀ st, P st → P (strategy3 st).
Proof.
  intros Hbody st Hst. unfold strategy3.
  apply strategy3_refs_ind; [done| |apply filter_refs_spec|done].
  apply filter_refs_from_NoDup.
Qed.

(** All three strategies, from the initial state. *)
Lemma final_state_ind (P : State → Prop) tasks timeSlots :
  P {| schedule := []; remainingTasks := tasks; availableSlots := map initSlot timeSlots |} →
  (∀ st k tr, P st → remainingTasks st !! k = Some tr → P (strategy1_body tr st)) →
  (∀ st tr i, P st → tr ∈ remainingTasks st →
     P (strategy2_body (totalTaskTime tasks) (totalAvailableTime timeSlots) st tr i)) →
  (∀ st ref item, P st → schedule st !! ref = Some item → rescue_pred item = true →
     P (strategy3_body st ref)) →
  P (final_state tasks timeSlots).
Proof.
  intros H0 H1 H2 H3. unfold final_state.
  apply strategy3_ind; [done|]. apply strategy2_ind; [done|].
  unfold strategy1. by apply strategy1_loop_ind.
Qed.

(** A property [Q] of every item that each strategy establishes for the item
    it writes holds of every item of the final schedule. [R] is a property
    of the durations of the input tasks, which the tasks held by the items
    inherit. *)
Lemma final_items_ind (R : Z → Prop) (Q : ScheduleItem → Prop) tasks timeSlots :
  Forall (λ tr : TaskRef, R (estimated_duration tr.2)) tasks →
  (∀ t j s, R (estimated_duration t) → Q (perfect_item t j s)) →
  (∀ t j m, R (estimated_duration t) → 0 < m →
     Q (partial_item t j (Z.min (estimated_duration t) m)
          (Z.min (estimated_duration t) m <? estimated_duration t)
          (totalAvailableTime timeSlots <? totalTaskTime tasks))) →
  (∀ t, R (estimated_duration t) → Q (unscheduled_item t)) →
  (∀ item j s, R (estimated_duration (task item)) → rescue_slot s = true →
     Q (emergency_item item j (Z.min (estimated_duration (task item)) (remaining_time s)))) →
  Forall (λ item, R (estimated_duration (task item)) ∧ Q item)
    (schedule (final_state tasks timeSlots)).
Proof.
  intros Htasks Hperfect Hpartial Hunsched Hrescue.
  pose (P := λ st : State,
    Forall (λ tr : TaskRef, R (estimated_duration tr.2)) (remainingTasks st) ∧
    Forall (λ item, R (estimated_duration (task item)) ∧ Q item) (schedule st)).
  cut (P (final_state tasks timeSlots)); [by intros [_ H]|].
  apply final_state_ind; unfold P; simpl.
  - split; [done|constructor].
  - intros st k tr [Hrem Hst] Hk. unfold strategy1_body.
    assert (R (estimated_duration tr.2)) as Htr.
    { by apply (Forall_lookup_1 _ _ _ _ Hrem Hk). }
    destruct (findBestFit _ _) as [[[s j] fit]|]; [|done].
    simpl. split.
    + destruct (indexOf _ _); [by apply Forall_delete | by apply Forall_take].
    + apply Forall_app. split; [done|]. repeat constructor; [done|]. by apply Hperfect.
  - intros st tr i [Hrem Hst] Hin.
    assert (R (estimated_duration tr.2)) as Htr.
    { by apply (proj1 (Forall_forall _ _) Hrem tr). }
    unfold strategy2_body.
    destruct (findLargest _) as [[[s j]|] m]; simpl.
    + destruct (0 <? m) eqn:Hm; simpl; (split; [done|]).
      * apply Z.ltb_lt in Hm. apply Forall_app. split; [done|].
        repeat constructor; [done|]. by apply Hpartial.
      * apply Forall_app. split; [done|]. repeat constructor; [done|]. by apply Hunsched.
    + split; [done|].
      apply Forall_app. split; [done|]. repeat constructor; [done|]. by apply Hunsched.
  - intros st ref item [Hrem Hst] Hitem _. unfold strategy3_body. rewrite Hitem.
    destruct (JS.find rescue_slot (availableSlots st)) as [[j s]|] eqn:Hfind; [|done].
    simpl. split; [done|]. apply find_Some in Hfind as (_ & Hs & _).
    assert (R (estimated_duration (task item))) as Hit.
    { by destruct (Forall_lookup_1 _ _ _ _ Hst Hitem). }
    apply Forall_insert; [done|]. split; [done|]. by apply Hrescue.
Qed.

End Strategies.

(** ** Items of the returned schedule *)

Section Items.

Lemma createOptimizedScheduleFixed_items (R : Z → Prop) (Q : ScheduleItem → Prop)
    tasks timeSlots stressLevel mood :
  Forall (λ tr : TaskRef, R (estimated_duration tr.2)) tasks →
  (∀ t, R (estimated_duration t) → Q (no_slots_item t)) →
  (∀ t j s, R (estimated_duration t) → Q (perfect_item t j s)) →
  (∀ t j m, R (estimated_duration t) → 0 < m →
     Q (partial_item t j (Z.min (estimated_duration t) m)
          (Z.min (estimated_duration t) m <? estimated_duration t)
          (totalAvailableTime timeSlots <? totalTaskTime tasks))) →
  (∀ t, R (estimated_duration t) → Q (unscheduled_item t)) →
  (∀ item j s, R (estimated_duration (task item)) → rescue_slot s = true →
     Q (emergency_item item j (Z.min (estimated_duration (task item)) (remaining_time s)))) →
  Forall Q (createOptimizedScheduleFixed tasks timeSlots stressLevel mood).
Proof.
  intros Htasks Hnone Hperfect Hpartial Hunsched Hrescue.
  unfold createOptimizedScheduleFixed. destruct (nothing_to_do tasks timeSlots).
  - apply Forall_fmap. eapply Forall_impl; [exact Htasks|].
    intros tr Htr. by apply Hnone.
  - eapply Forall_impl; [by apply (final_items_ind R Q)|]. by intros item [_ H].
Qed.

Lemma confidence_in_levels tasks timeSlots stressLevel mood :
  Forall (λ item, scheduling_confidence item ∈ confidence_levels)
    (createOptimizedScheduleFixed tasks timeSlots stressLevel mood).
Proof.
  apply (createOptimizedScheduleFixed_items (λ _, True)).
  - by apply Forall_true.
  - intros; simpl. in_levels.
  - intros; simpl. in_levels.
  - intros t j m _ _. simpl. destruct (_ <? _); in_levels.
  - intros; simpl. in_levels.
  - intros; simpl. in_levels.
Qed.

Lemma partial_scaled_minutes tasks timeSlots stressLevel mood :
  Forall (λ tr : TaskRef, 0 < estimated_duration tr.2) tasks →
  Forall (λ item,
    (completion_status item = partial →
     0 < allocated_duration item < estimated_duration (task item)) ∧
    (completion_status item = scaled →
     0 < allocated_duration item ∧
     allocated_duration item = estimated_duration (task item)))
    (createOptimizedScheduleFixed tasks timeSlots stressLevel mood).
Proof.
  intros Hpos. apply (createOptimizedScheduleFixed_items (λ d, 0 < d)); [done|..].
  - intros t _. by simpl.
  - intros t j s _. by simpl.
  - intros t j m Ht Hm. simpl.
    destruct (Z.min (estimated_duration t) m <? estimated_duration t) eqn:E.
    + apply Z.ltb_lt in E. split; [intros _; lia | done].
    + apply Z.ltb_ge in E. destruct (_ <? _); split; try done. intros _. lia.
  - intros t _. by simpl.
  - intros item j s Hit Hs. simpl.
    apply andb_true_iff in Hs as [_ Hs]. apply Z.leb_le in Hs.
    destruct (Z.min (estimated_duration (task item)) (remaining_time s)
              <? estimated_duration (task item)) eqn:E.
    + apply Z.ltb_lt in E. split; [intros _; lia | done].
    + apply Z.ltb_ge in E. split; [done|]. intros _. lia.
Qed.

End Items.

(** ** Conservation of the minutes of a slot *)

Section Conservation.

Variable timeSlots : list TimeSlot.
Hypothesis nonnegative : Forall (λ slot, 0 ≤ duration_minutes slot) timeSlots.

Lemma window_load_app j l x :
  window_load j (l ++ [x]) = window_load j l + allocated_in j x.
Proof.
  unfold window_load. induction l as [|y l IH]; simpl; [lia|]. rewrite IH. lia.
Qed.

Lemma window_load_insert j l : ∀ r x y,
  l !! r = Some x →
  window_load j (<[r := y]> l) = window_load j l - allocated_in j x + allocated_in j y.
Proof.
  unfold window_load. induction l as [|z l IH]; intros r x y Hr; [done|].
  destruct r as [|r]; simpl in *.
  - injection Hr as ->. lia.
  - rewrite (IH _ _ _ Hr). lia.
Qed.

Lemma allocated_in_none j item : time_block item = None → allocated_in j item = 0.
Proof. intros H. unfold allocated_in. rewrite H. by case_decide. Qed.

Lemma allocated_in_some j j' item :
  time_block item = Some j →
  allocated_in j' item = if decide (j' = j) then allocated_duration item else 0.
Proof.
  intros H. unfold allocated_in. rewrite H.
  repeat case_decide; try done; congruence.
Qed.

(** Taking [a] minutes, no more than remain, from an unused slot. *)
Lemma conserving_allocate st st' j s s' a :
  conserving timeSlots st →
  availableSlots st !! j = Some s → used s = false → a ≤ remaining_time s →
  slot_of s' = slot_of s →
  (used s' = false → remaining_time s' = remaining_time s - a) →
  availableSlots st' = <[j := s']> (availableSlots st) →
  (∀ j', window_load j' (schedule st')
         = window_load j' (schedule st) + if decide (j' = j) then a else 0) →
  Forall (λ item, completion_status item = not_scheduled → time_block item = None)
    (schedule st') →
  conserving timeSlots st'.
Proof.
  intros (Hlen & Hslots & _) Hj Hu Ha Hsame Hrem Hst' Hload Hitems.
  split; [|split; [|done]].
  { by rewrite Hst', length_insert. }
  intros j' t Ht. rewrite Hst' in Ht. rewrite Hload.
  destruct (decide (j' = j)) as [->|Hne].
  - rewrite list_lookup_insert_eq in Ht by by eapply lookup_lt_Some.
    injection Ht as <-. destruct (Hslots _ _ Hj) as (Hin & Hle & Hfree).
    specialize (Hfree Hu). rewrite Hsame.
    split; [done|]. split; [lia|]. intros Hu'. rewrite (Hrem Hu'). lia.
  - rewrite list_lookup_insert_ne in Ht by done.
    destruct (Hslots _ _ Ht) as (Hin & Hle & Hfree).
    split; [done|]. split; [lia|]. intros Hu'. rewrite <- (Hfree Hu'). lia.
Qed.

Lemma conserving_unscheduled st t :
  conserving timeSlots st →
  conserving timeSlots
    {| schedule := schedule st ++ [unscheduled_item t];
       availableSlots := availableSlots st;
       remainingTasks := remainingTasks st |}.
Proof.
  intros (Hlen & Hslots & Hitems). split; [done|]. split; simpl.
  - intros j s Hs. rewrite window_load_app, allocated_in_none by done.
    rewrite Z.add_0_r. by apply Hslots.
  - apply Forall_app. split; [done|]. by repeat constructor.
Qed.

Lemma conserving_initial tasks :
  conserving timeSlots
    {| schedule := []; remainingTasks := tasks; availableSlots := map initSlot timeSlots |}.
Proof.
  split; [simpl; by rewrite length_map|]. split; simpl; [|constructor].
  intros j s Hs. change (map initSlot timeSlots) with (initSlot <$> timeSlots) in Hs.
  rewrite list_lookup_fmap in Hs.
  destruct (timeSlots !! j) as [slot|] eqn:E; simpl in Hs; [|done].
  injection Hs as <-. simpl. split; [done|].
  split; [|intros _; lia].
  by apply (Forall_lookup_1 _ _ _ _ nonnegative E).
Qed.

Lemma conserving_final tasks :
  conserving timeSlots (final_state tasks timeSlots).
Proof.
  apply final_state_ind.
  - apply conserving_initial.
  - intros st k tr Hst _. unfold strategy1_body.
    pose proof (findBestFit_spec (estimated_duration tr.2) (availableSlots st)) as Hbest.
    destruct (findBestFit _ _) as [[[s j] fit]|]; [|done].
    destruct Hbest as (Hj & [Hu Hd] & _).
    eapply conserving_allocate
      with (st := st) (j := j) (s := s) (a := estimated_duration tr.2)
           (s' := take_perfect (estimated_duration tr.2) s);
      try done; simpl.
    + unfold take_perfect. by destruct (_ =? _).
    + unfold take_perfect. destruct (_ =? _); [done|]. by simpl.
    + intros j'. rewrite window_load_app. by rewrite (allocated_in_some j).
    + destruct Hst as (_ & _ & Hitems). apply Forall_app. split; [done|].
      by repeat constructor.
  - intros st tr i Hst _. unfold strategy2_body.
    pose proof (findLargest_spec (availableSlots st)) as Hbest.
    destruct (findLargest _) as [[[s j]|] m]; [|by apply conserving_unscheduled].
    destruct Hbest as (Hj & [Hu H15] & -> & _).
    destruct (0 <? remaining_time s); [|by apply conserving_unscheduled].
    eapply conserving_allocate
      with (st := st) (j := j) (s := s)
           (a := Z.min (estimated_duration tr.2) (remaining_time s))
           (s' := take_minutes 15 (Z.min (estimated_duration tr.2) (remaining_time s)) s);
      try done; simpl; [lia| |].
    + intros j'. rewrite window_load_app. by rewrite (allocated_in_some j).
    + destruct Hst as (_ & _ & Hitems). apply Forall_app. split; [done|].
      repeat constructor. simpl. by repeat destruct (_ <? _).
  - intros st ref item Hst Hitem Hp. unfold strategy3_body. rewrite Hitem.
    destruct (JS.find rescue_slot (availableSlots st)) as [[j s]|] eqn:Hfind; [|done].
    apply find_Some in Hfind as (Hj & Hs & _).
    apply andb_true_iff in Hs as [Hu H10]. apply negb_true_iff in Hu.
    assert (time_block item = None) as Hnone.
    { destruct Hst as (_ & _ & Hitems).
      apply (Forall_lookup_1 _ _ _ _ Hitems Hitem).
      apply andb_true_iff in Hp as [Hp _]. by apply bool_decide_eq_true in Hp. }
    eapply conserving_allocate
      with (st := st) (j := j) (s := s)
           (a := Z.min (estimated_duration (task item)) (remaining_time s))
           (s' := take_minutes 10
                    (Z.min (estimated_duration (task item)) (remaining_time s)) s);
      try done; simpl; [lia| |].
    + intros j'. rewrite (window_load_insert _ _ _ _ _ Hitem).
      rewrite (allocated_in_none _ _ Hnone). rewrite (allocated_in_some j); [|done].
      simpl. lia.
    + destruct Hst as (_ & _ & Hitems). apply Forall_insert; [done|].
      simpl. by destruct (_ <? _).
Qed.

Lemma window_load_no_slots j (tasks : list TaskRef) :
  window_load j (map (λ tr, no_slots_item tr.2) tasks) = 0.
Proof. induction tasks as [|tr l IH]; simpl; [done|]. by rewrite IH. Qed.

Lemma conservation_of_slots tasks stressLevel mood :
  ∀ j slot, timeSlots !! j = Some slot →
    window_load j (createOptimizedScheduleFixed tasks timeSlots stressLevel mood)
    ≤ duration_minutes slot.
Proof.
  intros j slot Hj. unfold createOptimizedScheduleFixed.
  destruct (nothing_to_do tasks timeSlots).
  - rewrite window_load_no_slots. by apply (Forall_lookup_1 _ _ _ _ nonnegative Hj).
  - destruct (conserving_final tasks) as (Hlen & Hslots & _).
    destruct (lookup_lt_is_Some_2 (availableSlots (final_state tasks timeSlots)) j)
      as [s Hs].
    { rewrite Hlen. by eapply lookup_lt_Some. }
    destruct (Hslots _ _ Hs) as (Hin & Hle & _).
    rewrite Hj in Hin. injection Hin as ->. done.
Qed.

End Conservation.

(** ** The call as a whole *)

Section Call.

Lemma calculateDeadlineUrgency_run t clk n :
  calculateDeadlineUrgency t clk n = (urgency_at t (clk n), (n + reads t)%nat).
Proof.
  unfold calculateDeadlineUrgency, urgency_at, reads.
  destruct (deadline t); simpl; unfold mbind, Run_bind, mret, Run_ret, new_Date; simpl;
    f_equal; lia.
Qed.

Lemma analyse_run stressLevel t i clk n :
  analyse stressLevel t i clk n
  = ((i, with_analysis
           (analysis_of stressLevel t (urgency_at t (clk n))
              (urgency_at t (clk (n + reads t)%nat))) t),
     (n + reads t + reads t)%nat).
Proof.
  unfold analyse, calculateFinalPriority, mbind, Run_bind.
  by rewrite !calculateDeadlineUrgency_run.
Qed.

Lemma mapM_from_cons {A B} (f : A → nat → Run B) x l i clk n :
  mapM_from f (x :: l) i clk n
  = (let '(y, n') := f x i clk n in
     let '(ys, n'') := mapM_from f l (S i) clk n' in
     (y :: ys, n'')).
Proof.
  simpl. unfold mbind, Run_bind. destruct (f x i clk n) as [y n'].
  by destruct (mapM_from f l (S i) clk n').
Qed.

(** The analysed array: one object per task, at the address given by its
    index, holding the task with its analysis. *)
Lemma mapM_analyse_spec stressLevel tasks clk : ∀ i n,
  Forall2 (analysed_from stressLevel)
    tasks (mapM_from (analyse stressLevel) tasks i clk n).1 ∧
  (mapM_from (analyse stressLevel) tasks i clk n).1.*1 = seq i (length tasks).
Proof.
  induction tasks as [|t l IH]; intros i n.
  - split; [constructor|done].
  - rewrite mapM_from_cons, analyse_run.
    destruct (IH (S i) (n + reads t + reads t)%nat) as [H1 H2].
    destruct (mapM_from _ l _ _ _) as [ys n'']. simpl in *. split.
    + constructor; [|done]. unfold analysed_from. simpl. eauto.
    + by f_equal.
Qed.

(** Two clocks under which every task has one urgency give the same analysed
    array. *)
Lemma mapM_analyse_ext stressLevel tasks clk1 clk2 :
  (∀ t, t ∈ tasks → ∀ a b, urgency_at t (clk1 a) = urgency_at t (clk2 b)) →
  ∀ i n1 n2,
    (mapM_from (analyse stressLevel) tasks i clk1 n1).1
    = (mapM_from (analyse stressLevel) tasks i clk2 n2).1.
Proof.
  induction tasks as [|t l IH]; intros Hsame i n1 n2; [done|].
  rewrite !mapM_from_cons, !analyse_run.
  assert (∀ t', t' ∈ l → ∀ a b, urgency_at t' (clk1 a) = urgency_at t' (clk2 b)) as Hl.
  { intros t' Ht'. apply Hsame. by right. }
  specialize (IH Hl (S i) (n1 + reads t + reads t)%nat (n2 + reads t + reads t)%nat).
  destruct (mapM_from _ l _ clk1 _) as [ys1 m1].
  destruct (mapM_from _ l _ clk2 _) as [ys2 m2]. simpl in *. subst ys2.
  assert (t ∈ t :: l) as Ht by by left.
  by rewrite (Hsame t Ht n1 n2), (Hsame t Ht (n1 + reads t)%nat (n2 + reads t)%nat).
Qed.

Lemma insert_desc_Permutation a l : insert_desc a l ≡ₚ a :: l.
Proof.
  induction l as [|b l IH]; simpl; [done|].
  destruct (Qle_bool _ _); [done|]. rewrite IH. apply Permutation_swap.
Qed.

Lemma sort_desc_Permutation l : sort_desc l ≡ₚ l.
Proof.
  induction l as [|a l IH]; simpl; [done|].
  rewrite insert_desc_Permutation. by constructor.
Qed.

Lemma sort_desc_length l : length (sort_desc l) = length l.
Proof. apply Permutation_length, sort_desc_Permutation. Qed.

Lemma analysed_length tasks stressLevel clk :
  length (analysed tasks stressLevel clk) = length tasks.
Proof.
  destruct (mapM_analyse_spec stressLevel tasks clk 0 0) as [H _].
  symmetry. by eapply Forall2_length.
Qed.

Lemma call_schedule tasks timeSlots stressLevel mood clk :
  optimized_schedule (call tasks timeSlots stressLevel mood clk)
  = createOptimizedScheduleFixed (sort_desc (analysed tasks stressLevel clk))
      timeSlots stressLevel mood.
Proof.
  unfold call, processScheduleLocally, analysed, mbind, Run_bind.
  by destruct (mapM_from _ _ _ _ _).
Qed.

Lemma call_average tasks timeSlots stressLevel mood clk :
  average_scheduling_confidence
    (scheduling_summary (insights (call tasks timeSlots stressLevel mood clk)))
  = 0.85%Q.
Proof.
  unfold call, processScheduleLocally, mbind, Run_bind.
  by destruct (mapM_from _ _ _ _ _).
Qed.

Lemma call_slot_objects tasks timeSlots stressLevel mood clk :
  slot_objects (call tasks timeSlots stressLevel mood clk)
  = slots_after (sort_desc (analysed tasks stressLevel clk)) timeSlots.
Proof.
  unfold call, processScheduleLocally, analysed, mbind, Run_bind.
  by destruct (mapM_from _ _ _ _ _).
Qed.

(** Calls under clocks that give every task one urgency differ in
    [generated_at] at most. *)
Lemma call_ext tasks timeSlots stressLevel mood clk1 clk2 :
  (∀ t, t ∈ tasks → ∀ a b, urgency_at t (clk1 a) = urgency_at t (clk2 b)) →
  optimized_schedule (call tasks timeSlots stressLevel mood clk1)
  = optimized_schedule (call tasks timeSlots stressLevel mood clk2) ∧
  slot_objects (call tasks timeSlots stressLevel mood clk1)
  = slot_objects (call tasks timeSlots stressLevel mood clk2) ∧
  stress_analysis (call tasks timeSlots stressLevel mood clk1)
  = stress_analysis (call tasks timeSlots stressLevel mood clk2) ∧
  task_analysis (call tasks timeSlots stressLevel mood clk1)
  = task_analysis (call tasks timeSlots stressLevel mood clk2) ∧
  insights (call tasks timeSlots stressLevel mood clk1)
  = insights (call tasks timeSlots stressLevel mood clk2).
Proof.
  intros Hsame.
  pose proof (mapM_analyse_ext stressLevel tasks clk1 clk2 Hsame 0 0 0)%nat as Heq.
  unfold call, processScheduleLocally, mbind, Run_bind.
  destruct (mapM_from _ _ _ clk1 _) as [a1 n1].
  destruct (mapM_from _ _ _ clk2 _) as [a2 n2]. simpl in *. by subst a2.
Qed.

(** No task or no slot: one unscheduled item per task, no slot touched. *)
Lemma call_nothing_to_do tasks timeSlots stressLevel mood clk :
  tasks = [] ∨ timeSlots = [] →
  optimized_schedule (call tasks timeSlots stressLevel mood clk)
  = map (λ tr : TaskRef, no_slots_item tr.2) (sort_desc (analysed tasks stressLevel clk)) ∧
  slot_objects (call tasks timeSlots stressLevel mood clk) = [].
Proof.
  intros Hempty. rewrite call_schedule, call_slot_objects.
  unfold createOptimizedScheduleFixed, slots_after.
  assert (nothing_to_do (sort_desc (analysed tasks stressLevel clk)) timeSlots = true)
    as ->; [|done].
  unfold nothing_to_do. rewrite sort_desc_length, analysed_length.
  destruct Hempty as [-> | ->]; simpl; [done|]. apply orb_true_r.
Qed.

End Call.

(** ** Strategy 3, item by item *)

Section Rescue.

Lemma filter_refs_from_app p l1 l2 : ∀ i,
  filter_refs_from p (l1 ++ l2) i
  = filter_refs_from p l1 i ++ filter_refs_from p l2 (i + length l1)%nat.
Proof.
  induction l1 as [|x l1 IH]; intros i; simpl.
  - by rewrite Nat.add_0_r.
  - rewrite IH. replace (S i + length l1)%nat with (i + S (length l1))%nat by lia.
    by destruct (p x).
Qed.

Lemma filter_refs_from_bound p l i r :
  r ∈ filter_refs_from p l i → (i ≤ r < i + length l)%nat.
Proof.
  intros H. apply filter_refs_from_spec in H as (Hle & x & Hx & _).
  apply lookup_lt_Some in Hx. lia.
Qed.

Lemma foldl_strategy3_other refs : ∀ st r,
  r ∉ refs → schedule (foldl strategy3_body st refs) !! r = schedule st !! r.
Proof.
  induction refs as [|a refs IH]; intros st r Hr; simpl; [done|].
  apply not_elem_of_cons in Hr as [Hne Hr].
  rewrite IH by done. by apply strategy3_body_other.
Qed.

(** The references selected by the filter, around a selected position. *)
Lemma filter_refs_around p l r x :
  l !! r = Some x → p x = true →
  filter_refs p l
  = filter_refs p (take r l) ++ r :: filter_refs_from p (drop (S r) l) (S r).
Proof.
  intros Hr Hp. unfold filter_refs.
  rewrite <- (take_drop_middle l r x Hr) at 1.
  rewrite filter_refs_from_app. simpl. rewrite Hp.
  rewrite length_take_le; [done|]. apply lookup_lt_Some in Hr. lia.
Qed.

Lemma strategy3_around st r item :
  schedule st !! r = Some item → rescue_pred item = true →
  strategy3 st
  = foldl strategy3_body (strategy3_body (turn_state st r) r)
      (filter_refs_from rescue_pred (drop (S r) (schedule st)) (S r)).
Proof.
  intros Hr Hp. unfold strategy3, turn_state.
  by rewrite (filter_refs_around _ _ _ _ Hr Hp), foldl_app.
Qed.

Lemma turn_state_item st r :
  schedule (turn_state st r) !! r = schedule st !! r.
Proof.
  unfold turn_state. apply foldl_strategy3_other.
  intros H. apply filter_refs_from_bound in H. rewrite length_take in H. lia.
Qed.

Lemma strategy3_at st r item :
  schedule st !! r = Some item → rescue_pred item = true →
  schedule (strategy3 st) !! r = schedule (strategy3_body (turn_state st r) r) !! r.
Proof.
  intros Hr Hp. rewrite (strategy3_around _ _ _ Hr Hp).
  apply foldl_strategy3_other.
  intros H. apply filter_refs_from_bound in H. lia.
Qed.

Lemma rescue_pred_true item :
  completion_status item = not_scheduled →
  priority (task item) = "high" ∨ (0.8 < deadline_urgency item)%Q →
  rescue_pred item = true.
Proof.
  intros Hs Hp. unfold rescue_pred.
  apply andb_true_iff. split; [by apply bool_decide_eq_true|].
  apply orb_true_iff. destruct Hp as [Hp|Hp].
  - left. by apply String.eqb_eq.
  - right. unfold JS.Qgt_bool. apply negb_true_iff.
    destruct (Qle_bool (deadline_urgency item) 0.8) eqn:E; [|done].
    apply Qle_bool_iff in E. by apply Qlt_not_le in Hp.
Qed.

Lemma rescue_slot_true s :
  rescue_slot s = true ↔ used s = false ∧ 10 ≤ remaining_time s.
Proof.
  unfold rescue_slot. rewrite andb_true_iff, negb_true_iff, Z.leb_le. done.
Qed.

(** The item selected by the filter, when its turn comes and a slot
    qualifies: it is rewritten for the first qualifying slot. *)
Lemma strategy3_rescues st r item j s :
  schedule st !! r = Some item → rescue_pred item = true →
  availableSlots (turn_state st r) !! j = Some s → rescue_slot s = true →
  ∃ j0 s0,
    (j0 ≤ j)%nat ∧
    availableSlots (turn_state st r) !! j0 = Some s0 ∧ rescue_slot s0 = true ∧
    schedule (strategy3 st) !! r
    = Some (emergency_item item j0
              (Z.min (estimated_duration (task item)) (remaining_time s0))).
Proof.
  intros Hr Hp Hj Hs.
  rewrite (strategy3_at _ _ _ Hr Hp). unfold strategy3_body.
  rewrite turn_state_item, Hr.
  destruct (JS.find rescue_slot (availableSlots (turn_state st r)))
    as [[j0 s0]|] eqn:Hfind.
  - apply find_Some in Hfind as (Hj0 & Hs0 & Hfirst).
    exists j0, s0. split.
    { destruct (decide (j0 ≤ j)%nat) as [|Hgt]; [done|].
      rewrite (Hfirst j s) in Hs; [done|lia|done]. }
    split; [done|]. split; [done|]. simpl.
    apply list_lookup_insert_eq. rewrite <- turn_state_item in Hr.
    by eapply lookup_lt_Some.
  - rewrite (find_None _ _ Hfind _ _ Hj) in Hs. done.
Qed.

End Rescue.

(** ** Which task each item holds *)

Section Order.

Lemma with_title_same t : with_title (title t) t = t.
Proof. by destruct t. Qed.

Lemma indexOf_from_middle (front back : list TaskRef) tr : ∀ i,
  (∀ x, x ∈ front → x.1 ≠ tr.1) →
  indexOf_from tr.1 (front ++ tr :: back) i = Some (i + length front)%nat.
Proof.
  induction front as [|x front IH]; intros i Hne; simpl.
  - rewrite Nat.eqb_refl. f_equal. lia.
  - assert (x.1 ≠ tr.1) as Hx by (apply Hne; by left).
    apply Nat.eqb_neq in Hx. rewrite Hx. rewrite IH.
    + f_equal. lia.
    + intros y Hy. apply Hne. by right.
Qed.

Lemma indexOf_middle (front back : list TaskRef) tr :
  NoDup (front ++ tr :: back).*1 →
  indexOf tr.1 (front ++ tr :: back) = Some (length front).
Proof.
  intros Hnd. unfold indexOf. rewrite indexOf_from_middle; [done|].
  intros x Hx Heq. rewrite fmap_app, fmap_cons in Hnd.
  apply NoDup_app in Hnd as (_ & Hdisj & _).
  apply (Hdisj x.1).
  - by apply list_elem_of_fmap_2.
  - rewrite Heq. by left.
Qed.

(** The callback of strategy 1 on the element at position [length front]. *)
Lemma strategy1_body_cases st front tr back :
  remainingTasks st = front ++ tr :: back →
  NoDup (remainingTasks st).*1 →
  strategy1_body tr st = st ∨
  (∃ item, fitted_item tr item ∧
     schedule (strategy1_body tr st) = schedule st ++ [item] ∧
     remainingTasks (strategy1_body tr st) = front ++ back).
Proof.
  intros Hrem Hnd. unfold strategy1_body.
  destruct (findBestFit _ _) as [[[s j] fit]|]; [|by left].
  right. exists (perfect_item tr.2 j s). split; [by exists j, s|].
  split; [done|]. simpl. rewrite Hrem in *.
  rewrite indexOf_middle by done. apply delete_middle.
Qed.

Lemma sublist_map {A B} (f : A → B) (l k : list A) :
  sublist l k → sublist (f <$> l) (f <$> k).
Proof. induction 1; simpl; by constructor. Qed.

Lemma sublist_snoc {A} (l k : list A) x : sublist l k → sublist l (k ++ [x]).
Proof. apply sublist_inserts_r. Qed.

Lemma sublist_snoc_both {A} (l k : list A) x : sublist l k → sublist (l ++ [x]) (k ++ [x]).
Proof. intros H. by apply sublist_app. Qed.

(** The loop of strategy 1. [visited] is the part of the array that the
    index has passed, split into the tasks [placed] in the schedule and the
    tasks [front] left in the array; [back] is the part not yet reached. *)
Lemma strategy1_loop_structure tasks : ∀ n k st placed visited front back,
  NoDup tasks.*1 →
  tasks = visited ++ back →
  remainingTasks st = front ++ back →
  sublist placed visited → sublist front visited → placed ++ front ≡ₚ visited →
  Forall2 fitted_item placed (schedule st) →
  (length front ≤ k)%nat → length front = k ∨ back = [] →
  ∃ placed',
    sublist placed' tasks ∧
    sublist (remainingTasks (strategy1_loop n k st)) tasks ∧
    placed' ++ remainingTasks (strategy1_loop n k st) ≡ₚ tasks ∧
    Forall2 fitted_item placed' (schedule (strategy1_loop n k st)).
Proof.
  induction n as [|n IH];
    intros k st placed visited front back Hnd Htasks Hrem Hp Hf Hperm Hitems Hk Hpos.
  - simpl. exists placed. rewrite Hrem, Htasks. split; [by apply sublist_inserts_r|].
    split; [by apply sublist_app|]. split; [|done].
    by rewrite app_assoc, Hperm.
  - simpl. destruct (remainingTasks st !! k) as [tr|] eqn:Hlook.
    + (* the array has an element at [k]: it is the head of [back] *)
      assert (length front = k ∧ ∃ back', back = tr :: back') as [Hlen [back' ->]].
      { rewrite Hrem in Hlook. destruct Hpos as [Hlen | ->].
        - split; [done|]. rewrite lookup_app_r in Hlook by lia.
          rewrite Hlen, Nat.sub_diag in Hlook. destruct back; [done|].
          injection Hlook as ->. eauto.
        - rewrite app_nil_r in Hlook. apply lookup_lt_Some in Hlook. lia. }
      assert (NoDup (remainingTasks st).*1) as Hnd'.
      { rewrite Hrem. apply (sublist_NoDup _ tasks.*1); [done|].
        rewrite Htasks. apply sublist_map. by apply sublist_app. }
      destruct (strategy1_body_cases st front tr back' Hrem Hnd')
        as [-> | (item & Hitem & Hsched & Hrem')].
      * (* no fit: the task stays in the array, the index passes it *)
        apply (IH (S k) st placed (visited ++ [tr]) (front ++ [tr]) back'); try done.
        -- by rewrite <- app_assoc.
        -- by rewrite <- app_assoc.
        -- by apply sublist_snoc.
        -- by apply sublist_snoc_both.
        -- by rewrite app_assoc, Hperm.
        -- rewrite length_app. simpl. lia.
        -- left. rewrite length_app. simpl. lia.
      * (* a fit: the task leaves the array, and the task behind it, if
           any, takes its position and is passed by the index *)
        destruct back' as [|next back''].
        -- apply (IH (S k) _ (placed ++ [tr]) (visited ++ [tr]) front []); try done.
           ++ by rewrite <- app_assoc.
           ++ by apply sublist_snoc_both.
           ++ by apply sublist_snoc.
           ++ rewrite <- app_assoc, (Permutation_app_comm [tr] front), app_assoc.
              by rewrite Hperm.
           ++ rewrite Hsched. apply Forall2_app; [done|]. by repeat constructor.
           ++ lia.
           ++ by right.
        -- apply (IH (S k) _ (placed ++ [tr]) (visited ++ [tr; next])
                    (front ++ [next]) back''); try done.
           ++ by rewrite <- app_assoc.
           ++ by rewrite Hrem', <- app_assoc.
           ++ replace (visited ++ [tr; next]) with ((visited ++ [tr]) ++ [next])
                by by rewrite <- app_assoc.
              by apply sublist_snoc, sublist_snoc_both.
           ++ replace (visited ++ [tr; next]) with ((visited ++ [tr]) ++ [next])
                by by rewrite <- app_assoc.
              by apply sublist_snoc_both, sublist_snoc.
           ++ replace (visited ++ [tr; next]) with ((visited ++ [tr]) ++ [next])
                by by rewrite <- app_assoc.
              rewrite (app_assoc _ front [next]). apply Permutation_app; [|done].
              rewrite <- app_assoc, (Permutation_app_comm [tr] front), app_assoc.
              by rewrite Hperm.
           ++ rewrite Hsched. apply Forall2_app; [done|]. by repeat constructor.
           ++ rewrite length_app. simpl. lia.
           ++ left. rewrite length_app. simpl. lia.
    + (* no element at [k]: the index is past the end of the array *)
      assert (back = []) as ->.
      { destruct Hpos as [Hlen|]; [|done].
        apply lookup_ge_None in Hlook. rewrite Hrem, length_app in Hlook.
        destruct back; [done|]. simpl in Hlook. lia. }
      apply (IH (S k) st placed visited front []); try done; [lia | by right].
Qed.

Lemma strategy1_structure tasks timeSlots :
  NoDup tasks.*1 →
  let st1 := strategy1 {| schedule := [];
                          remainingTasks := tasks;
                          availableSlots := map initSlot timeSlots |} in
  ∃ fitted,
    sublist fitted tasks ∧ sublist (remainingTasks st1) tasks ∧
    fitted ++ remainingTasks st1 ≡ₚ tasks ∧
    Forall2 fitted_item fitted (schedule st1).
Proof.
  intros Hnd. unfold strategy1. simpl.
  by eapply (strategy1_loop_structure tasks _ 0%nat _ [] [] [] tasks); try by left.
Qed.

Lemma strategy2_body_item T A st tr i :
  ∃ item, schedule (strategy2_body T A st tr i) = schedule st ++ [item] ∧ item_for tr item.
Proof.
  unfold strategy2_body.
  destruct (findLargest _) as [[[s j]|] m]; [destruct (0 <? m)|];
    eexists; (split; [reflexivity|]); try by left.
  unfold item_for, partial_item. simpl.
  destruct (_ <? estimated_duration tr.2); [by right|].
  left. apply with_title_same.
Qed.

Lemma strategy2_from_structure T A l : ∀ i st,
  ∃ l', schedule (JS.forEach_from (strategy2_body T A) l i st) = schedule st ++ l' ∧
        Forall2 item_for l l'.
Proof.
  induction l as [|tr l IH]; intros i st; simpl.
  - exists []. by rewrite app_nil_r.
  - destruct (strategy2_body_item T A st tr i) as (item & Hitem & Hfor).
    destruct (IH (S i) (strategy2_body T A st tr i)) as (l' & Hl' & Hfor').
    exists (item :: l'). rewrite Hl', Hitem, <- app_assoc. split; [done|].
    by constructor.
Qed.

Lemma rescue_pred_fitted tr item : fitted_item tr item → rescue_pred item = false.
Proof. by intros (j & s & ->). Qed.

(** Strategy 3 rewrites items in place and keeps the task they hold. *)
Lemma strategy3_structure fitted others st :
  (∃ l1 l2, schedule st = l1 ++ l2 ∧
            Forall2 fitted_item fitted l1 ∧ Forall2 item_for others l2) →
  ∃ l1 l2, schedule (strategy3 st) = l1 ++ l2 ∧
           Forall2 fitted_item fitted l1 ∧ Forall2 item_for others l2.
Proof.
  apply (strategy3_ind (λ st, ∃ l1 l2, schedule st = l1 ++ l2 ∧
            Forall2 fitted_item fitted l1 ∧ Forall2 item_for others l2)).
  clear st. intros st ref item (l1 & l2 & Hsched & H1 & H2) Hitem Hp.
  unfold strategy3_body. rewrite Hitem.
  destruct (JS.find rescue_slot (availableSlots st)) as [[j s]|]; [|by eauto].
  simpl. rewrite Hsched in *.
  destruct (decide (ref < length l1)%nat) as [Hlt|Hge].
  - rewrite lookup_app_l in Hitem by done.
    destruct (Forall2_lookup_r _ _ _ _ _ H1 Hitem) as (tr & _ & Hfit).
    by rewrite (rescue_pred_fitted _ _ Hfit) in Hp.
  - rewrite lookup_app_r in Hitem by lia.
    destruct (Forall2_lookup_r _ _ _ _ _ H2 Hitem) as (tr & Htr & Hfor).
    exists l1, (<[(ref - length l1)%nat := emergency_item item j
                    (Z.min (estimated_duration (task item)) (remaining_time s))]> l2).
    split.
    { rewrite <- insert_app_r. f_equal. lia. }
    split; [done|].
    rewrite <- (list_insert_id others (ref - length l1)%nat tr Htr).
    by apply Forall2_insert.
Qed.

(** The returned schedule: the tasks that strategy 1 fitted, then the
    others, each group in the order it has in the array passed in. *)
Lemma schedule_structure tasks timeSlots stressLevel mood :
  NoDup tasks.*1 →
  ∃ fitted others l1 l2,
    sublist fitted tasks ∧ sublist others tasks ∧ fitted ++ others ≡ₚ tasks ∧
    createOptimizedScheduleFixed tasks timeSlots stressLevel mood = l1 ++ l2 ∧
    Forall2 fitted_item fitted l1 ∧ Forall2 item_for others l2.
Proof.
  intros Hnd. unfold createOptimizedScheduleFixed.
  destruct (nothing_to_do tasks timeSlots).
  - exists [], tasks, [], (map (λ tr : TaskRef, no_slots_item tr.2) tasks).
    split; [apply sublist_nil_l|]. split; [done|]. split; [done|]. split; [done|].
    split; [constructor|]. clear Hnd.
    induction tasks as [|tr l IH]; simpl; constructor; [by left | done].
  - destruct (strategy1_structure tasks timeSlots Hnd) as (fitted & Hf & Ho & Hperm & H1).
    set (st1 := strategy1 _) in *.
    destruct (strategy2_from_structure (totalTaskTime tasks) (totalAvailableTime timeSlots)
                (remainingTasks st1) 0%nat st1) as (l' & Hl' & H2).
    destruct (strategy3_structure fitted (remainingTasks st1)
                (strategy2 (totalTaskTime tasks) (totalAvailableTime timeSlots) st1))
      as (l1 & l2 & Hsched & H1' & H2'); [by eauto|].
    exists fitted, (remainingTasks st1), l1, l2. done.
Qed.



End Order.

(** ** The allocator as [processScheduleLocally] calls it *)

Section CallItems.

Lemma analysed_durations (R : Z → Prop) tasks stressLevel clk :
  Forall (λ t, R (estimated_duration t)) tasks →
  Forall (λ tr : TaskRef, R (estimated_duration tr.2))
    (sort_desc (analysed tasks stressLevel clk)).
Proof.
  intros H. rewrite sort_desc_Permutation.
  destruct (mapM_analyse_spec stressLevel tasks clk 0 0) as [Hfrom _].
  fold (analysed tasks stressLevel clk) in Hfrom.
  induction Hfrom as [|t tr l k (u & u' & Htr) _ IH]; [constructor|].
  apply Forall_cons in H as [Ht Hl]. constructor; [|by apply IH].
  by rewrite Htr.
Qed.

Lemma call_conservation tasks timeSlots stressLevel mood clk :
  Forall (λ slot, 0 ≤ duration_minutes slot) timeSlots →
  ∀ j slot, timeSlots !! j = Some slot →
    window_load j (optimized_schedule (call tasks timeSlots stressLevel mood clk))
    ≤ duration_minutes slot.
Proof. intros H j slot Hj. rewrite call_schedule. by apply conservation_of_slots. Qed.

Lemma call_partial_scaled tasks timeSlots stressLevel mood clk :
  Forall (λ t, 0 < estimated_duration t) tasks →
  Forall (λ item,
    (completion_status item = partial →
     0 < allocated_duration item < estimated_duration (task item)) ∧
    (completion_status item = scaled →
     0 < allocated_duration item ∧
     allocated_duration item = estimated_duration (task item)))
    (optimized_schedule (call tasks timeSlots stressLevel mood clk)).
Proof.
  intros H. rewrite call_schedule. apply partial_scaled_minutes.
  by apply (analysed_durations (λ d, 0 < d)).
Qed.

Lemma call_confidence tasks timeSlots stressLevel mood clk :
  Forall (λ item, scheduling_confidence item ∈ confidence_levels)
    (optimized_schedule (call tasks timeSlots stressLevel mood clk)).
Proof. rewrite call_schedule. apply confidence_in_levels. Qed.

Lemma mapM_analyse_clock stressLevel tasks clk1 clk2 :
  (∀ n, clk1 n = clk2 n) →
  ∀ i n, mapM_from (analyse stressLevel) tasks i clk1 n
         = mapM_from (analyse stressLevel) tasks i clk2 n.
Proof.
  intros Hclk. induction tasks as [|t l IH]; intros i n; [done|].
  rewrite !mapM_from_cons, !analyse_run, !Hclk. by rewrite IH.
Qed.

(** The result is a function of the inputs and of the readings of the
    clock. *)
Lemma call_same_clock tasks timeSlots stressLevel mood clk1 clk2 :
  (∀ n, clk1 n = clk2 n) →
  call tasks timeSlots stressLevel mood clk1 = call tasks timeSlots stressLevel mood clk2.
Proof.
  intros Hclk. unfold call, processScheduleLocally, mbind, Run_bind.
  rewrite (mapM_analyse_clock stressLevel tasks clk1 clk2 Hclk).
  destruct (mapM_from _ _ _ _ _) as [a n]. simpl. unfold new_Date. by rewrite Hclk.
Qed.

End CallItems.

(** ** Urgency *)

Section Urgency.

Lemma Qle_bool_false a b : Qle_bool a b = false → (b < a)%Q.
Proof.
  intros H. destruct (Qlt_le_dec b a) as [|Hle]; [done|].
  apply Qle_bool_iff in Hle. congruence.
Qed.

(** The steps of the urgency of a deadline [h] hours away. *)
Lemma urgency_of_hours_steps (h : Q) :
  ((h <= 6)%Q → urgency_of_hours (Some h) = 1.0%Q) ∧
  ((6 < h)%Q → (h <= 24)%Q → urgency_of_hours (Some h) = 0.9%Q) ∧
  ((24 < h)%Q → (h <= 48)%Q → urgency_of_hours (Some h) = 0.7%Q) ∧
  ((48 < h)%Q → (h <= 168)%Q → urgency_of_hours (Some h) = 0.5%Q) ∧
  ((168 < h)%Q → urgency_of_hours (Some h) = 0.3%Q).
Proof.
  unfold urgency_of_hours, JS.le.
  destruct (Qle_bool h 6) eqn:E6;
    [apply Qle_bool_iff in E6 | apply Qle_bool_false in E6];
  (destruct (Qle_bool h 24) eqn:E24;
    [apply Qle_bool_iff in E24 | apply Qle_bool_false in E24]);
  (destruct (Qle_bool h 48) eqn:E48;
    [apply Qle_bool_iff in E48 | apply Qle_bool_false in E48]);
  (destruct (Qle_bool h 168) eqn:E168;
    [apply Qle_bool_iff in E168 | apply Qle_bool_false in E168]);
  repeat split; intros; try reflexivity; exfalso; lra.
Qed.

(** A task without a deadline. *)
Lemma urgency_without_deadline t clk n :
  deadline t = None → (calculateDeadlineUrgency t clk n).1 = 0.2%Q.
Proof. intros H. rewrite calculateDeadlineUrgency_run. unfold urgency_at. by rewrite H. Qed.

(** A task whose deadline is a date: the steps, on the hours between the
    reading of the clock and the deadline. *)
Lemma urgency_with_deadline t ms clk n :
  deadline t = Some (TimeValue ms) →
  (calculateDeadlineUrgency t clk n).1
  = urgency_of_hours (Some (inject_Z (ms - clk n) / inject_Z (1000 * 60 * 60))%Q).
Proof. intros H. rewrite calculateDeadlineUrgency_run. unfold urgency_at. by rewrite H. Qed.

(** A task whose deadline is not a date: every comparison fails. *)
Lemma urgency_with_invalid_date t clk n :
  deadline t = Some InvalidDate → (calculateDeadlineUrgency t clk n).1 = 0.3%Q.
Proof. intros H. rewrite calculateDeadlineUrgency_run. unfold urgency_at. by rewrite H. Qed.

End Urgency.

(** ** Strategy 1 on the task it visits *)

Section PerfectFit.

(** When the callback of strategy 1 runs on a task and some slot qualifies,
    the task gets its full duration in the first slot of least leftover. *)
Lemma strategy1_body_best_fit tr st j s :
  availableSlots st !! j = Some s → fits (estimated_duration tr.2) s →
  ∃ j0 s0,
    availableSlots st !! j0 = Some s0 ∧ fits (estimated_duration tr.2) s0 ∧
    (∀ j' s', availableSlots st !! j' = Some s' → fits (estimated_duration tr.2) s' →
       remaining_time s0 ≤ remaining_time s' ∧
       (remaining_time s' = remaining_time s0 → (j0 ≤ j')%nat)) ∧
    schedule (strategy1_body tr st) = schedule st ++ [perfect_item tr.2 j0 s0].
Proof.
  intros Hj Hs. unfold strategy1_body.
  pose proof (findBestFit_spec (estimated_duration tr.2) (availableSlots st)) as Hbest.
  destruct (findBestFit _ _) as [[[s0 j0] fit]|].
  - destruct Hbest as (Hj0 & Hs0 & -> & Hmin). exists j0, s0.
    split; [done|]. split; [done|]. split; [|done].
    intros j' s' Hj' Hs'. destruct (Hmin _ _ Hj' Hs') as [Hle Hfirst].
    split; [lia|]. intros E. apply Hfirst. lia.
  - by destruct (Hbest _ _ Hj).
Qed.

(** The callback removes the task it fits from the position it was read
    at. *)
Lemma strategy1_body_remaining st k tr :
  NoDup (remainingTasks st).*1 → remainingTasks st !! k = Some tr →
  strategy1_body tr st = st ∨
  (remainingTasks (strategy1_body tr st) = delete k (remainingTasks st) ∧
   ∃ item, fitted_item tr item ∧ schedule (strategy1_body tr st) = schedule st ++ [item]).
Proof.
  intros Hnd Hk. pose proof (take_drop_middle _ _ _ Hk) as Hsplit.
  symmetry in Hsplit.
  destruct (strategy1_body_cases st _ tr _ Hsplit Hnd)
    as [-> | (item & Hitem & Hsched & Hrem)]; [by left|].
  right. split; [|by eauto].
  rewrite Hrem. rewrite Hsplit at 3.
  assert (length (take k (remainingTasks st)) = k) as Hlen.
  { apply length_take_le. apply lookup_lt_Some in Hk. lia. }
  rewrite <- Hlen at 3. by rewrite delete_middle.
Qed.

Lemma delete_NoDup_fst (l : list TaskRef) k : NoDup l.*1 → NoDup (delete k l).*1.
Proof.
  intros H. apply (sublist_NoDup _ l.*1); [done|]. apply sublist_map, sublist_delete.
Qed.

Lemma take_delete_behind {A} (l : list A) : ∀ m k,
  (m ≤ k)%nat → take m (delete k l) = take m l.
Proof.
  induction l as [|x l IH]; intros m k Hmk; [by destruct k|].
  destruct m as [|m]; [done|]. destruct k as [|k]; [lia|].
  simpl. f_equal. apply IH. lia.
Qed.

(** The loop of strategy 1 never takes a task out of the part of the array in
    front of its index: a task that sits there stays in [remainingTasks], for
    strategy 2. *)
Lemma strategy1_loop_front n : ∀ k st m,
  (m ≤ k)%nat → NoDup (remainingTasks st).*1 →
  take m (remainingTasks (strategy1_loop n k st)) = take m (remainingTasks st).
Proof.
  induction n as [|n IH]; intros k st m Hm Hnd; simpl; [done|].
  destruct (remainingTasks st !! k) as [tr|] eqn:Hk; [|apply IH; [lia|done]].
  destruct (strategy1_body_remaining st k tr Hnd Hk) as [-> | [Hdel _]].
  - apply IH; [lia|done].
  - rewrite IH; [|lia|rewrite Hdel; by apply delete_NoDup_fst].
    rewrite Hdel. by apply take_delete_behind.
Qed.

(** The task behind a task that strategy 1 fits is passed over: it takes the
    position of the fitted task, which the index has left, and is still in
    [remainingTasks] when the loop ends, whatever the slots offer. *)
Lemma strategy1_passes_over n st front tr next rest :
  NoDup (remainingTasks st).*1 →
  remainingTasks st = front ++ tr :: next :: rest →
  findBestFit (estimated_duration tr.2) (availableSlots st) ≠ None →
  remainingTasks (strategy1_loop (S n) (length front) st) !! length front = Some next.
Proof.
  intros Hnd Hrem Hfit. simpl.
  assert (remainingTasks st !! length front = Some tr) as Hk.
  { rewrite Hrem. by rewrite list_lookup_middle. }
  rewrite Hk.
  destruct (strategy1_body_remaining st _ tr Hnd Hk) as [Hsame | [Hdel _]].
  { unfold strategy1_body in Hsame. destruct (findBestFit _ _) as [[[s j] fit]|]; [|done].
    apply (f_equal (λ x, length (schedule x))) in Hsame. simpl in Hsame.
    rewrite length_app in Hsame. simpl in Hsame. lia. }
  assert (remainingTasks (strategy1_body tr st) = front ++ next :: rest) as Hrem'.
  { rewrite Hdel, Hrem. by rewrite delete_middle. }
  assert (take (S (length front))
            (remainingTasks (strategy1_loop n (S (length front)) (strategy1_body tr st)))
          = take (S (length front)) (remainingTasks (strategy1_body tr st))) as Htake.
  { apply strategy1_loop_front; [lia|]. rewrite Hdel. by apply delete_NoDup_fst. }
  rewrite <- (lookup_take_lt _ (S (length front))) by lia.
  rewrite Htake, lookup_take_lt by lia.
  rewrite Hrem'. by rewrite list_lookup_middle.
Qed.

End PerfectFit.

(** ** The two groups of the returned schedule *)

Section Groups.

Lemma strategy2_body_later T A st tr i :
  ∃ item, schedule (strategy2_body T A st tr i) = schedule st ++ [item] ∧
          later_item tr item.
Proof.
  unfold strategy2_body.
  destruct (findLargest _) as [[[s j]|] m]; [destruct (0 <? m)|];
    eexists; (split; [reflexivity|]).
  - unfold later_item, partial_item. simpl.
    destruct (_ <? estimated_duration tr.2); [by left|].
    right. split; [apply list_elem_of_here | apply with_title_same].
  - right. split; [|done]. simpl. do 2 apply list_elem_of_further. apply list_elem_of_here.
  - right. split; [|done]. simpl. do 2 apply list_elem_of_further. apply list_elem_of_here.
Qed.

Lemma strategy2_from_later T A l : ∀ i st,
  ∃ l', schedule (JS.forEach_from (strategy2_body T A) l i st) = schedule st ++ l' ∧
        Forall2 later_item l l'.
Proof.
  induction l as [|tr l IH]; intros i st; simpl.
  - exists []. by rewrite app_nil_r.
  - destruct (strategy2_body_later T A st tr i) as (item & Hitem & Hfor).
    destruct (IH (S i) (strategy2_body T A st tr i)) as (l' & Hl' & Hfor').
    exists (item :: l'). rewrite Hl', Hitem, <- app_assoc. split; [done|].
    by constructor.
Qed.

(** An item that strategy 3 selects holds its task object as it is, and so
    does the item that replaces it. *)
Lemma later_item_rescued tr item j minutes :
  later_item tr item → rescue_pred item = true →
  later_item tr (emergency_item item j minutes).
Proof.
  intros Hfor Hp. unfold rescue_pred in Hp.
  apply andb_true_iff in Hp as [Hns _]. apply bool_decide_eq_true in Hns.
  destruct Hfor as [(_ & Hpartial & _)|[_ Htask]]; [congruence|].
  right. split; [|done]. simpl. apply list_elem_of_further, list_elem_of_here.
Qed.

Lemma strategy3_later fitted others st :
  (∃ l1 l2, schedule st = l1 ++ l2 ∧
            Forall2 fitted_item fitted l1 ∧ Forall2 later_item others l2) →
  ∃ l1 l2, schedule (strategy3 st) = l1 ++ l2 ∧
           Forall2 fitted_item fitted l1 ∧ Forall2 later_item others l2.
Proof.
  apply (strategy3_ind (λ st, ∃ l1 l2, schedule st = l1 ++ l2 ∧
            Forall2 fitted_item fitted l1 ∧ Forall2 later_item others l2)).
  clear st. intros st ref item (l1 & l2 & Hsched & H1 & H2) Hitem Hp.
  unfold strategy3_body. rewrite Hitem.
  destruct (JS.find rescue_slot (availableSlots st)) as [[j s]|]; [|by eauto].
  simpl. rewrite Hsched in *.
  destruct (decide (ref < length l1)%nat) as [Hlt|Hge].
  - rewrite lookup_app_l in Hitem by done.
    destruct (Forall2_lookup_r _ _ _ _ _ H1 Hitem) as (tr & _ & Hfit).
    by rewrite (rescue_pred_fitted _ _ Hfit) in Hp.
  - rewrite lookup_app_r in Hitem by lia.
    destruct (Forall2_lookup_r _ _ _ _ _ H2 Hitem) as (tr & Htr & Hfor).
    exists l1, (<[(ref - length l1)%nat := emergency_item item j
                    (Z.min (estimated_duration (task item)) (remaining_time s))]> l2).
    split.
    { rewrite <- insert_app_r. f_equal. lia. }
    split; [done|].
    rewrite <- (list_insert_id others (ref - length l1)%nat tr Htr).
    apply Forall2_insert; [done|]. by apply later_item_rescued.
Qed.

(** The returned schedule: the perfect fits of strategy 1, then the items of
    the other tasks, each group in the order it has in the array passed in. *)
Lemma schedule_grouped tasks timeSlots stressLevel mood :
  NoDup tasks.*1 →
  grouped tasks (createOptimizedScheduleFixed tasks timeSlots stressLevel mood).
Proof.
  intros Hnd. unfold grouped, createOptimizedScheduleFixed.
  destruct (nothing_to_do tasks timeSlots).
  - exists [], tasks, [], (map (λ tr : TaskRef, no_slots_item tr.2) tasks).
    split; [apply sublist_nil_l|]. split; [done|]. split; [done|]. split; [done|].
    split; [constructor|]. clear Hnd.
    induction tasks as [|tr l IH]; simpl; constructor; [|done].
    right. split; [|done]. simpl. do 2 apply list_elem_of_further. apply list_elem_of_here.
  - destruct (strategy1_structure tasks timeSlots Hnd) as (fitted & Hf & Ho & Hperm & H1).
    set (st1 := strategy1 _) in *.
    destruct (strategy2_from_later (totalTaskTime tasks) (totalAvailableTime timeSlots)
                (remainingTasks st1) 0%nat st1) as (l' & Hl' & H2).
    destruct (strategy3_later fitted (remainingTasks st1)
                (strategy2 (totalTaskTime tasks) (totalAvailableTime timeSlots) st1))
      as (l1 & l2 & Hsched & H1' & H2'); [by eauto|].
    exists fitted, (remainingTasks st1), l1, l2. done.
Qed.

Lemma grouped_length tasks sched : grouped tasks sched → length sched = length tasks.
Proof.
  intros (fitted & others & l1 & l2 & _ & _ & Hperm & -> & H1 & H2).
  rewrite length_app, <- (Forall2_length _ _ _ H1), <- (Forall2_length _ _ _ H2),
    <- length_app. by apply Permutation_length.
Qed.

End Groups.

(** * The claims *)

(** C1. Conservation: whatever the tasks, when no slot has a negative
    duration, the sum of [allocated_duration] over the items whose
    [time_block] is a given slot never exceeds the [duration_minutes] of that
    slot. *)
Theorem conservation tasks timeSlots stressLevel mood :
  Forall (λ slot, 0 ≤ duration_minutes slot) timeSlots →
  ∀ j slot, timeSlots !! j = Some slot →
    window_load j (createOptimizedScheduleFixed tasks timeSlots stressLevel mood)
    ≤ duration_minutes slot.
Proof. intros H. by apply conservation_of_slots. Qed.

Lemma conservation_witness :
  Forall (λ slot, 0 ≤ duration_minutes slot) [slot_of_minutes 60] ∧
  [slot_of_minutes 60] !! 0%nat = Some (slot_of_minutes 60) ∧
  window_load 0
    (createOptimizedScheduleFixed (refs_of two_half_hours) [slot_of_minutes 60] 5 "focused")
  ≤ duration_minutes (slot_of_minutes 60).
Proof.
  assert (Forall (λ slot, 0 ≤ duration_minutes slot) [slot_of_minutes 60]) as H.
  { repeat constructor. simpl. lia. }
  split; [exact H|]. split; [reflexivity|].
  exact (conservation (refs_of two_half_hours) [slot_of_minutes 60] 5 "focused" H
           0%nat (slot_of_minutes 60) eq_refl).
Defined.

(** C2, as stated, fails: a task of low priority entered in front of a task of
    high priority comes out behind it. *)
Lemma schedule_not_in_input_order :
  map (λ item, id (task item))
    (optimized_schedule (call low_then_high [slot_of_minutes 60] 5 "focused" epoch))
  ≠ map id low_then_high.
Proof. vm_compute. discriminate. Qed.

(** C2, amended. The analysed array holds one copy per input task, and the
    returned schedule is what the allocator makes of a rearrangement of that
    array: it has as many items as there are tasks. Whatever the
    rearrangement is, the allocator returns one item per object: first the
    perfect fits of strategy 1 (confidence 0.9), then the items of the other
    tasks (confidence 0.8, 0.6, 0.5 or 0.0), each group in the order its
    tasks have in the rearranged array; an item holds the fields of its
    object, retitled as partial exactly when its confidence is 0.6 (the
    partial items of strategy 2, not those of strategy 3). *)
Theorem one_item_per_task tasks timeSlots stressLevel mood clk :
  let input := analysed tasks stressLevel clk in
  let sched := optimized_schedule (call tasks timeSlots stressLevel mood clk) in
  Forall2 analysed_copy tasks input ∧
  length sched = length tasks ∧
  (∃ sorted, sorted ≡ₚ input ∧
     sched = createOptimizedScheduleFixed sorted timeSlots stressLevel mood) ∧
  (∀ sorted, sorted ≡ₚ input →
     grouped sorted (createOptimizedScheduleFixed sorted timeSlots stressLevel mood)).
Proof.
  intros input sched.
  destruct (mapM_analyse_spec stressLevel tasks clk 0 0) as [Hfrom Haddr].
  fold (analysed tasks stressLevel clk) in Hfrom, Haddr. fold input in Hfrom, Haddr.
  assert (∀ sorted, sorted ≡ₚ input → NoDup sorted.*1) as Hnd.
  { intros sorted Hperm. rewrite Hperm, Haddr. apply NoDup_seq. }
  split.
  { eapply Forall2_impl; [exact Hfrom|]. intros t tr (u & u' & Htr). by eexists. }
  split.
  { unfold sched. rewrite call_schedule. fold input.
    rewrite (grouped_length _ _ (schedule_grouped (sort_desc input) timeSlots stressLevel
                                   mood (Hnd _ (sort_desc_Permutation input)))).
    rewrite sort_desc_length. apply analysed_length. }
  split.
  { exists (sort_desc input). split; [apply sort_desc_Permutation|].
    unfold sched. by rewrite call_schedule. }
  intros sorted Hperm. apply schedule_grouped. by apply Hnd.
Qed.

(** C3, as stated, fails: an item can be [scaled] with its full duration
    allocated. *)
Lemma scaled_item_with_full_duration :
  ∃ item,
    optimized_schedule (call long_and_short [slot_of_minutes 60] 5 "focused" epoch) !! 1%nat
    = Some item ∧
    completion_status item = scaled ∧
    ¬ (0 < allocated_duration item < estimated_duration (task item)).
Proof.
  eexists. split; [vm_compute; reflexivity|]. split; [reflexivity|]. simpl. lia.
Qed.

(** C3, amended. When every task has a positive duration: a [partial] item
    has more than no and less than all of its minutes allocated, and a
    [scaled] item has all of them. *)
Theorem partial_and_scaled_minutes tasks timeSlots stressLevel mood :
  Forall (λ tr : TaskRef, 0 < estimated_duration tr.2) tasks →
  Forall (λ item,
    (completion_status item = partial →
     0 < allocated_duration item < estimated_duration (task item)) ∧
    (completion_status item = scaled →
     0 < allocated_duration item ∧
     allocated_duration item = estimated_duration (task item)))
    (createOptimizedScheduleFixed tasks timeSlots stressLevel mood).
Proof. apply partial_scaled_minutes. Qed.

Lemma partial_and_scaled_minutes_witness :
  Forall (λ tr : TaskRef, 0 < estimated_duration tr.2) (refs_of long_and_short) ∧
  Forall (λ item,
    (completion_status item = partial →
     0 < allocated_duration item < estimated_duration (task item)) ∧
    (completion_status item = scaled →
     0 < allocated_duration item ∧
     allocated_duration item = estimated_duration (task item)))
    (createOptimizedScheduleFixed (refs_of long_and_short) [slot_of_minutes 60] 5 "focused").
Proof.
  assert (Forall (λ tr : TaskRef, 0 < estimated_duration tr.2) (refs_of long_and_short)) as H.
  { repeat constructor; simpl; lia. }
  split; [exact H|].
  exact (partial_and_scaled_minutes (refs_of long_and_short) [slot_of_minutes 60] 5
           "focused" H).
Defined.

(** C4, at the failing input: two tasks of thirty minutes and one slot of sixty.
    Strategy 1 fits the first task and leaves the loop without visiting the
    second, although the slot then has thirty unused minutes; strategy 2
    places the second task, with confidence 0.8. *)
Theorem perfect_fit_skipped :
  let sorted := sort_desc (analysed two_half_hours 5 epoch) in
  let st1 := strategy1 {| schedule := [];
                          remainingTasks := sorted;
                          availableSlots := map initSlot [slot_of_minutes 60] |} in
  map (λ tr : TaskRef, id tr.2) sorted = ["a"; "b"] ∧
  map (λ tr : TaskRef, id tr.2) (remainingTasks st1) = ["b"] ∧
  map (λ s, (remaining_time s, used s)) (availableSlots st1) = [(30, false)] ∧
  map (λ item, (id (task item), completion_status item, scheduling_confidence item))
    (optimized_schedule (call two_half_hours [slot_of_minutes 60] 5 "focused" epoch))
  = [("a", complete, 0.9%Q); ("b", complete, 0.8%Q)].
Proof. vm_compute. done. Qed.

(** C5, as stated, fails: one task that fits has confidence 0.9, and the
    average reported is 0.85. *)
Lemma average_confidence_is_not_mean :
  let r := call one_hour_task [slot_of_minutes 90] 5 "focused" epoch in
  ¬ (average_scheduling_confidence (scheduling_summary (insights r))
     == mean_confidence (optimized_schedule r))%Q.
Proof. vm_compute. discriminate. Qed.

(** C5, amended. The average confidence reported is the constant 0.85. *)
Theorem average_confidence_constant tasks timeSlots stressLevel mood clk :
  average_scheduling_confidence
    (scheduling_summary (insights (call tasks timeSlots stressLevel mood clk)))
  = 0.85%Q.
Proof. apply call_average. Qed.

(** C6, as stated, fails: one task and no slot give a schedule, of one
    unscheduled item. *)
Lemma no_windows_yields_schedule :
  map (λ item, (id (task item), time_block item, allocated_duration item,
                completion_status item, notes item))
    (optimized_schedule (call due_in_two_hours [] 5 "focused" epoch))
  = [("a", None, 0, not_scheduled, ["No time slots available"])].
Proof. vm_compute. reflexivity. Qed.

(** C6, amended. With no task or no slot, the check of the user interface
    fails; the agent itself, when called, allocates nothing and returns one
    unscheduled item per task. *)
Theorem empty_input_schedule tasks timeSlots stressLevel mood clk :
  tasks = [] ∨ timeSlots = [] →
  validateInputs tasks timeSlots = false ∧
  length (optimized_schedule (call tasks timeSlots stressLevel mood clk)) = length tasks ∧
  Forall (λ item,
    time_block item = None ∧ allocated_duration item = 0 ∧
    completion_status item = not_scheduled ∧ scheduling_confidence item = 0.0%Q ∧
    notes item = ["No time slots available"])
    (optimized_schedule (call tasks timeSlots stressLevel mood clk)) ∧
  slot_objects (call tasks timeSlots stressLevel mood clk) = [].
Proof.
  intros Hempty.
  destruct (call_nothing_to_do tasks timeSlots stressLevel mood clk Hempty) as [-> ->].
  split.
  { unfold validateInputs. destruct Hempty as [-> | ->]; simpl; [done|].
    by destruct (length tasks =? 0)%nat. }
  split; [by rewrite length_map, sort_desc_length, analysed_length|].
  split; [|done]. apply Forall_fmap. by apply Forall_true.
Qed.

Lemma empty_input_schedule_witness :
  (due_in_two_hours = [] ∨ @nil TimeSlot = []) ∧
  validateInputs due_in_two_hours [] = false ∧
  length (optimized_schedule (call due_in_two_hours [] 5 "focused" epoch))
  = length due_in_two_hours ∧
  Forall (λ item,
    time_block item = None ∧ allocated_duration item = 0 ∧
    completion_status item = not_scheduled ∧ scheduling_confidence item = 0.0%Q ∧
    notes item = ["No time slots available"])
    (optimized_schedule (call due_in_two_hours [] 5 "focused" epoch)) ∧
  slot_objects (call due_in_two_hours [] 5 "focused" epoch) = [].
Proof.
  split; [right; reflexivity|].
  exact (empty_input_schedule due_in_two_hours [] 5 "focused" epoch (or_intror eq_refl)).
Defined.

(** C7. In strategy 3, an item that is [not_scheduled] after strategy 2 and
    whose task has priority high or whose urgency exceeds 0.8: if, when its
    turn comes, some slot is unused with at least 10 minutes remaining, the
    item is rewritten for such a slot (the first one), with the lesser of the
    duration of the task and the remaining minutes of the slot, confidence
    0.5, and status [partial] if that is less than the duration and [scaled]
    otherwise. *)
Theorem emergency_rescue tasks timeSlots stressLevel mood r item j s :
  nothing_to_do tasks timeSlots = false →
  schedule (after_strategy2 tasks timeSlots) !! r = Some item →
  completion_status item = not_scheduled →
  priority (task item) = "high" ∨ (0.8 < deadline_urgency item)%Q →
  availableSlots (turn_state (after_strategy2 tasks timeSlots) r) !! j = Some s →
  used s = false → 10 ≤ remaining_time s →
  ∃ j0 s0 item',
    availableSlots (turn_state (after_strategy2 tasks timeSlots) r) !! j0 = Some s0 ∧
    used s0 = false ∧ 10 ≤ remaining_time s0 ∧ (j0 ≤ j)%nat ∧
    createOptimizedScheduleFixed tasks timeSlots stressLevel mood !! r = Some item' ∧
    task item' = task item ∧
    time_block item' = Some j0 ∧
    allocated_duration item' = Z.min (estimated_duration (task item)) (remaining_time s0) ∧
    scheduling_confidence item' = 0.5%Q ∧
    completion_status item'
    = (if allocated_duration item' <? estimated_duration (task item)
       then partial else scaled).
Proof.
  intros Hgo Hr Hstatus Hprio Hj Hu H10.
  assert (rescue_slot s = true) as Hs by by apply rescue_slot_true.
  destruct (strategy3_rescues _ r item j s Hr (rescue_pred_true _ Hstatus Hprio) Hj Hs)
    as (j0 & s0 & Hle & Hj0 & Hs0 & Hfinal).
  apply rescue_slot_true in Hs0 as [Hu0 H0].
  exists j0, s0, (emergency_item item j0
                    (Z.min (estimated_duration (task item)) (remaining_time s0))).
  repeat (split; [done|]). split; [|done].
  unfold createOptimizedScheduleFixed. rewrite Hgo. exact Hfinal.
Qed.

Lemma emergency_rescue_witness :
  let tasks := refs_of long_and_short in
  let timeSlots := [slot_of_minutes 60] in
  let item := unscheduled_item (task_of "b" "Task B" 10 "high" None) in
  let s := {| slot_of := slot_of_minutes 60; remaining_time := 10; used := false |} in
  nothing_to_do tasks timeSlots = false ∧
  schedule (after_strategy2 tasks timeSlots) !! 1%nat = Some item ∧
  completion_status item = not_scheduled ∧
  (priority (task item) = "high" ∨ (0.8 < deadline_urgency item)%Q) ∧
  availableSlots (turn_state (after_strategy2 tasks timeSlots) 1) !! 0%nat = Some s ∧
  used s = false ∧ 10 ≤ remaining_time s ∧
  ∃ j0 s0 item',
    availableSlots (turn_state (after_strategy2 tasks timeSlots) 1) !! j0 = Some s0 ∧
    used s0 = false ∧ 10 ≤ remaining_time s0 ∧ (j0 ≤ 0)%nat ∧
    createOptimizedScheduleFixed tasks timeSlots 5 "focused" !! 1%nat = Some item' ∧
    task item' = task item ∧
    time_block item' = Some j0 ∧
    allocated_duration item' = Z.min (estimated_duration (task item)) (remaining_time s0) ∧
    scheduling_confidence item' = 0.5%Q ∧
    completion_status item'
    = (if allocated_duration item' <? estimated_duration (task item)
       then partial else scaled).
Proof.
  intros tasks timeSlots item s.
  assert (10 ≤ remaining_time s) as H10 by (simpl; lia).
  repeat (split; [first [reflexivity | left; reflexivity | exact H10]|]).
  exact (emergency_rescue tasks timeSlots 5 "focused" 1%nat item 0%nat s
           eq_refl eq_refl eq_refl (or_introl eq_refl) eq_refl eq_refl H10).
Defined.

(** C8, at the failing input: for a task whose deadline is not a date the
    urgency computed is 0.3, not 0.2. *)
Theorem unparseable_deadline_urgency clk n :
  deadline no_date = Some InvalidDate ∧
  (calculateDeadlineUrgency no_date clk n).1 = 0.3%Q ∧
  ¬ ((calculateDeadlineUrgency no_date clk n).1 == 0.2)%Q.
Proof.
  split; [done|].
  rewrite (urgency_with_invalid_date no_date clk n eq_refl). split; [done|].
  vm_compute. discriminate.
Qed.

(** C9, as stated, fails: the same task and slot, scheduled when the deadline
    is seven hours away and when it is five hours away, give different
    items. *)
Lemma clock_changes_result :
  optimized_schedule (call due_in_seven_hours [slot_of_minutes 90] 5 "focused" epoch)
  ≠ optimized_schedule
      (call due_in_seven_hours [slot_of_minutes 90] 5 "focused" two_hours_later).
Proof.
  intros H. apply (f_equal (map deadline_urgency)) in H. vm_compute in H. discriminate.
Qed.

(** C9, amended. Two calls with the same inputs, under clocks at whose
    readings every task has one and the same urgency, return results that
    agree in everything but [generated_at]. *)
Theorem same_urgency_same_result tasks timeSlots stressLevel mood clk1 clk2 :
  (∀ t, t ∈ tasks → ∀ a b, urgency_at t (clk1 a) = urgency_at t (clk2 b)) →
  optimized_schedule (call tasks timeSlots stressLevel mood clk1)
  = optimized_schedule (call tasks timeSlots stressLevel mood clk2) ∧
  slot_objects (call tasks timeSlots stressLevel mood clk1)
  = slot_objects (call tasks timeSlots stressLevel mood clk2) ∧
  stress_analysis (call tasks timeSlots stressLevel mood clk1)
  = stress_analysis (call tasks timeSlots stressLevel mood clk2) ∧
  task_analysis (call tasks timeSlots stressLevel mood clk1)
  = task_analysis (call tasks timeSlots stressLevel mood clk2) ∧
  insights (call tasks timeSlots stressLevel mood clk1)
  = insights (call tasks timeSlots stressLevel mood clk2).
Proof. apply call_ext. Qed.

Lemma same_urgency_same_result_witness :
  let tasks := due_in_twenty_hours in
  let timeSlots := [slot_of_minutes 90] in
  (∀ t, t ∈ tasks → ∀ a b, urgency_at t (epoch a) = urgency_at t (two_hours_later b)) ∧
  optimized_schedule (call tasks timeSlots 5 "focused" epoch)
  = optimized_schedule (call tasks timeSlots 5 "focused" two_hours_later) ∧
  slot_objects (call tasks timeSlots 5 "focused" epoch)
  = slot_objects (call tasks timeSlots 5 "focused" two_hours_later) ∧
  stress_analysis (call tasks timeSlots 5 "focused" epoch)
  = stress_analysis (call tasks timeSlots 5 "focused" two_hours_later) ∧
  task_analysis (call tasks timeSlots 5 "focused" epoch)
  = task_analysis (call tasks timeSlots 5 "focused" two_hours_later) ∧
  insights (call tasks timeSlots 5 "focused" epoch)
  = insights (call tasks timeSlots 5 "focused" two_hours_later).
Proof.
  intros tasks timeSlots.
  assert (∀ t, t ∈ tasks → ∀ a b, urgency_at t (epoch a) = urgency_at t (two_hours_later b))
    as H.
  { intros t Ht a b. apply list_elem_of_singleton in Ht. subst t. reflexivity. }
  split; [exact H|].
  exact (same_urgency_same_result tasks timeSlots 5 "focused" epoch two_hours_later H).
Defined.

(** C10. Every item of the returned schedule has a confidence among 0.0, 0.5,
    0.6, 0.8 and 0.9. *)
Theorem confidence_values tasks timeSlots stressLevel mood :
  Forall (λ item, scheduling_confidence item ∈ confidence_levels)
    (createOptimizedScheduleFixed tasks timeSlots stressLevel mood).
Proof. apply confidence_in_levels. Qed.

(** * Further properties *)

(** ** The shape of the items *)

Section Shape.

(** A property of every item, given what the searches guarantee about the slot
    an item is written for, and, for strategy 3, about the item rewritten. *)
Lemma final_items_slots_ind (Q : ScheduleItem → Prop) tasks timeSlots :
  (∀ t j s, (j < length timeSlots)%nat → fits (estimated_duration t) s →
     Q (perfect_item t j s)) →
  (∀ t j s, (j < length timeSlots)%nat → roomy s →
     Q (partial_item t j (Z.min (estimated_duration t) (remaining_time s))
          (Z.min (estimated_duration t) (remaining_time s) <? estimated_duration t)
          (totalAvailableTime timeSlots <? totalTaskTime tasks))) →
  (∀ t, Q (unscheduled_item t)) →
  (∀ item j s, Q item → rescue_pred item = true →
     (j < length timeSlots)%nat → rescue_slot s = true →
     Q (emergency_item item j (Z.min (estimated_duration (task item)) (remaining_time s)))) →
  Forall Q (schedule (final_state tasks timeSlots)).
Proof.
  intros Hperfect Hpartial Hunsched Hrescue.
  pose (P := λ st : State,
    length (availableSlots st) = length timeSlots ∧ Forall Q (schedule st)).
  cut (P (final_state tasks timeSlots)); [by intros [_ H]|].
  apply final_state_ind; unfold P; simpl.
  - split; [by rewrite length_map | constructor].
  - intros st k tr [Hlen Hst] _. unfold strategy1_body.
    pose proof (findBestFit_spec (estimated_duration tr.2) (availableSlots st)) as Hbest.
    destruct (findBestFit _ _) as [[[s j] fit]|]; [|done].
    destruct Hbest as (Hj & Hfits & _). simpl.
    split; [by rewrite length_insert|].
    apply Forall_app. split; [done|]. repeat constructor.
    apply Hperfect; [|done]. rewrite <- Hlen. by eapply lookup_lt_Some.
  - intros st tr i [Hlen Hst] _. unfold strategy2_body.
    pose proof (findLargest_spec (availableSlots st)) as Hbest.
    destruct (findLargest _) as [[[s j]|] m]; simpl.
    + destruct Hbest as (Hj & Hroomy & -> & _).
      destruct (0 <? remaining_time s); simpl.
      * split; [by rewrite length_insert|].
        apply Forall_app. split; [done|]. repeat constructor.
        apply Hpartial; [|done]. rewrite <- Hlen. by eapply lookup_lt_Some.
      * split; [done|]. apply Forall_app. split; [done|]. by repeat constructor.
    + split; [done|]. apply Forall_app. split; [done|]. by repeat constructor.
  - intros st ref item [Hlen Hst] Hitem Hp. unfold strategy3_body. rewrite Hitem.
    destruct (JS.find rescue_slot (availableSlots st)) as [[j s]|] eqn:Hfind; [|done].
    simpl. apply find_Some in Hfind as (Hj & Hs & _).
    split; [by rewrite length_insert|].
    apply Forall_insert; [done|]. apply Hrescue; try done.
    + by apply (Forall_lookup_1 _ _ _ _ Hst Hitem).
    + rewrite <- Hlen. by eapply lookup_lt_Some.
Qed.

Lemma urgency_field_with_title ttl t : urgency_field (with_title ttl t) = urgency_field t.
Proof. done. Qed.

Lemma final_shape tasks timeSlots stressLevel mood :
  Forall (item_shape (length timeSlots))
    (createOptimizedScheduleFixed tasks timeSlots stressLevel mood).
Proof.
  unfold createOptimizedScheduleFixed. destruct (nothing_to_do tasks timeSlots).
  { apply Forall_fmap, Forall_true. by intros tr. }
  apply final_items_slots_ind.
  - intros t j s Hj _. split; [done|]. simpl. eauto 6.
  - intros t j s Hj [_ H15]. split; [done|]. simpl.
    destruct (Z.min (estimated_duration t) (remaining_time s) <? estimated_duration t) eqn:E.
    + apply Z.ltb_lt in E. simpl. split; [eauto|]. split; [lia|]. left. split; [done|lia].
    + apply Z.ltb_ge in E.
      destruct (_ <? _); simpl; (split; [eauto|]); (split; [lia|]);
        first [by left | by right].
  - by intros t.
  - intros item j s [Hurg _] _ Hj Hs. split; [done|]. simpl.
    apply rescue_slot_true in Hs as [_ H10].
    destruct (Z.min (estimated_duration (task item)) (remaining_time s)
              <? estimated_duration (task item)) eqn:E.
    + apply Z.ltb_lt in E. split; [eauto|]. split; [lia|]. right. split; [done|lia].
    + apply Z.ltb_ge in E. split; [eauto|]. split; [lia|]. by right.
Qed.

Lemma final_positive tasks timeSlots stressLevel mood :
  Forall (λ tr : TaskRef, 0 < estimated_duration tr.2) tasks →
  Forall (λ item, 0 < estimated_duration (task item))
    (createOptimizedScheduleFixed tasks timeSlots stressLevel mood).
Proof.
  intros H. by apply (createOptimizedScheduleFixed_items (λ d, 0 < d)).
Qed.

End Shape.

Lemma items_consistent tasks timeSlots stressLevel mood :
  Forall (λ tr : TaskRef, 0 < estimated_duration tr.2) tasks →
  Forall (λ item,
    (completion_status item = not_scheduled ↔ time_block item = None) ∧
    (time_block item = None ↔ allocated_duration item = 0) ∧
    (completion_status item = complete →
     allocated_duration item = estimated_duration (task item)) ∧
    0 ≤ allocated_duration item ≤ estimated_duration (task item))
    (createOptimizedScheduleFixed tasks timeSlots stressLevel mood).
Proof.
  intros Hpos.
  pose proof (final_shape tasks timeSlots stressLevel mood) as Hshape.
  pose proof (final_positive tasks timeSlots stressLevel mood Hpos) as Hdur.
  eapply Forall_impl; [apply Forall_and; split; [exact Hshape | exact Hdur]|].
  intros item [[_ Hs] Hd]. simpl in Hd.
  destruct (completion_status item);
    [destruct Hs as ((j & -> & _) & Ha & _)
    |destruct Hs as ((j & -> & _) & Ha & [[_ Hmin]|[_ Hmin]])
    |destruct Hs as ((j & -> & _) & Ha & _)
    |destruct Hs as (-> & -> & _)];
    repeat split; try done; try lia.
Qed.

(** X1. Status, time block and minutes agree: when every task has a positive
    duration, an item is [not_scheduled] exactly when it has no time block,
    and exactly when no minute is allocated; a [complete] item has the whole
    duration of its task; no item has more minutes than its task asks for. *)
Theorem status_consistency tasks timeSlots stressLevel mood :
  Forall (λ tr : TaskRef, 0 < estimated_duration tr.2) tasks →
  Forall (λ item,
    (completion_status item = not_scheduled ↔ time_block item = None) ∧
    (time_block item = None ↔ allocated_duration item = 0) ∧
    (completion_status item = complete →
     allocated_duration item = estimated_duration (task item)) ∧
    0 ≤ allocated_duration item ≤ estimated_duration (task item))
    (createOptimizedScheduleFixed tasks timeSlots stressLevel mood).
Proof. apply items_consistent. Qed.

Lemma status_consistency_witness :
  Forall (λ tr : TaskRef, 0 < estimated_duration tr.2) (refs_of low_then_high) ∧
  Forall (λ item,
    (completion_status item = not_scheduled ↔ time_block item = None) ∧
    (time_block item = None ↔ allocated_duration item = 0) ∧
    (completion_status item = complete →
     allocated_duration item = estimated_duration (task item)) ∧
    0 ≤ allocated_duration item ≤ estimated_duration (task item))
    (createOptimizedScheduleFixed (refs_of low_then_high) [slot_of_minutes 60] 5 "focused").
Proof.
  assert (Forall (λ tr : TaskRef, 0 < estimated_duration tr.2) (refs_of low_then_high)) as H.
  { repeat constructor; simpl; lia. }
  split; [exact H|].
  exact (status_consistency (refs_of low_then_high) [slot_of_minutes 60] 5 "focused" H).
Defined.

(** X2. The time block of an item is always one of the slots passed in. *)
Theorem time_block_in_range tasks timeSlots stressLevel mood :
  Forall (λ item, ∀ j, time_block item = Some j → is_Some (timeSlots !! j))
    (createOptimizedScheduleFixed tasks timeSlots stressLevel mood).
Proof.
  eapply Forall_impl; [apply final_shape|].
  intros item [_ Hs] j Hj. apply lookup_lt_is_Some.
  destruct (completion_status item);
    [destruct Hs as ((j' & Hj' & Hlt) & _)
    |destruct Hs as ((j' & Hj' & Hlt) & _)
    |destruct Hs as ((j' & Hj' & Hlt) & _)
    |destruct Hs as (Hnone & _)]; congruence.
Qed.

(** X3. Status and confidence go together: an unscheduled item has confidence
    0.0, a complete item 0.9 or 0.8, a partial item 0.6 or 0.5, a scaled item
    0.8 or 0.5; and confidence 0.9 is only found on complete items, 0.6 only on
    partial ones, 0.0 only on unscheduled ones. *)
Theorem confidence_by_status tasks timeSlots stressLevel mood :
  Forall (λ item,
    match completion_status item with
    | not_scheduled => scheduling_confidence item = 0.0%Q
    | complete => scheduling_confidence item = 0.9%Q ∨ scheduling_confidence item = 0.8%Q
    | partial => scheduling_confidence item = 0.6%Q ∨ scheduling_confidence item = 0.5%Q
    | scaled => scheduling_confidence item = 0.8%Q ∨ scheduling_confidence item = 0.5%Q
    end ∧
    (scheduling_confidence item = 0.9%Q → completion_status item = complete) ∧
    (scheduling_confidence item = 0.6%Q → completion_status item = partial) ∧
    (scheduling_confidence item = 0.0%Q → completion_status item = not_scheduled))
    (createOptimizedScheduleFixed tasks timeSlots stressLevel mood).
Proof.
  eapply Forall_impl; [apply final_shape|].
  intros item [_ Hs].
  destruct (completion_status item);
    [destruct Hs as (_ & _ & [Hc|Hc])
    |destruct Hs as (_ & _ & [[Hc _]|[Hc _]])
    |destruct Hs as (_ & _ & [Hc|Hc])
    |destruct Hs as (_ & _ & Hc)];
    rewrite Hc; repeat split; auto; discriminate.
Qed.

(** X4. A partial item is never a sliver: it has at least 10 minutes, and at
    least 15 when strategy 2 wrote it (confidence 0.6). *)
Theorem partial_minimum tasks timeSlots stressLevel mood :
  Forall (λ item,
    completion_status item = partial →
    10 ≤ allocated_duration item ∧
    (scheduling_confidence item = 0.6%Q → 15 ≤ allocated_duration item))
    (createOptimizedScheduleFixed tasks timeSlots stressLevel mood).
Proof.
  eapply Forall_impl; [apply final_shape|].
  intros item [_ Hs] Hp. rewrite Hp in Hs.
  destruct Hs as (_ & _ & [[Hc Hmin]|[Hc Hmin]]); (split; [lia|]).
  - done.
  - rewrite Hc. discriminate.
Qed.


(** ** Totals *)

Section Totals.

Lemma foldl_add_shift {A} (f : A → Z) (l : list A) : ∀ a,
  foldl (λ acc x, acc + f x) a l = a + foldl (λ acc x, acc + f x) 0 l.
Proof.
  induction l as [|x l IH]; intros a; simpl; [lia|].
  rewrite (IH (a + f x)), (IH (0 + f x)). lia.
Qed.

Lemma total_minutes_cons item sched :
  total_minutes (item :: sched) = allocated_duration item + total_minutes sched.
Proof. unfold total_minutes. simpl. rewrite foldl_add_shift. lia. Qed.

Lemma total_minutes_app l1 l2 :
  total_minutes (l1 ++ l2) = total_minutes l1 + total_minutes l2.
Proof.
  induction l1 as [|x l1 IH]; simpl; [unfold total_minutes at 2; simpl; lia|].
  rewrite !total_minutes_cons, IH. lia.
Qed.

Lemma sum_over_add f g js :
  sum_over (λ j, f j + g j) js = sum_over f js + sum_over g js.
Proof. induction js as [|j js IH]; simpl; [done|]. rewrite IH. lia. Qed.

Lemma sum_over_zero f js : (∀ j, j ∈ js → f j = 0) → sum_over f js = 0.
Proof.
  induction js as [|j js IH]; intros H; simpl; [done|].
  rewrite (H j) by by left. rewrite IH; [done|]. intros j' Hj'. apply H. by right.
Qed.

(** A function that is [a] at one index and zero elsewhere. *)
Lemma sum_over_single (f : nat → Z) a j0 n : ∀ i,
  (i ≤ j0 < i + n)%nat → f j0 = a → (∀ j, j ≠ j0 → f j = 0) →
  sum_over f (seq i n) = a.
Proof.
  induction n as [|n IH]; intros i Hj0 Ha Hz; [lia|]. simpl.
  destruct (decide (i = j0)) as [->|Hne].
  - rewrite Ha, sum_over_zero; [lia|].
    intros j Hj. apply Hz. apply elem_of_seq in Hj. lia.
  - rewrite (Hz i Hne), IH; [lia|lia|done|done].
Qed.

(** The minutes of a schedule are the minutes of its slots taken together. *)
Lemma total_minutes_by_slot n sched :
  Forall (λ item,
    (time_block item = None → allocated_duration item = 0) ∧
    (∀ j, time_block item = Some j → (j < n)%nat)) sched →
  total_minutes sched = sum_over (λ j, window_load j sched) (seq 0 n).
Proof.
  induction 1 as [|item sched [Hnone Hsome] _ IH].
  - rewrite sum_over_zero; done.
  - rewrite total_minutes_cons, IH.
    change (λ j, window_load j (item :: sched))
      with (λ j, allocated_in j item + window_load j sched).
    rewrite sum_over_add. f_equal.
    destruct (time_block item) as [j0|] eqn:Hb.
    + symmetry. apply (sum_over_single _ _ j0).
      * specialize (Hsome j0 eq_refl). lia.
      * unfold allocated_in. rewrite Hb. by case_decide.
      * intros j Hj. unfold allocated_in. rewrite Hb. case_decide; [congruence|done].
    + rewrite Hnone by done. symmetry. apply sum_over_zero.
      intros j _. by apply allocated_in_none.
Qed.

Lemma sum_over_durations (timeSlots : list TimeSlot) : ∀ (f : nat → Z) i,
  (∀ j slot, timeSlots !! j = Some slot → f (i + j)%nat ≤ duration_minutes slot) →
  sum_over f (seq i (length timeSlots)) ≤ totalAvailableTime timeSlots.
Proof.
  unfold totalAvailableTime.
  induction timeSlots as [|slot l IH]; intros f i Hf; simpl; [done|].
  rewrite foldl_add_shift.
  specialize (Hf 0%nat slot eq_refl) as H0. rewrite Nat.add_0_r in H0.
  assert (sum_over f (seq (S i) (length l)) ≤ foldl (λ sum s, sum + duration_minutes s) 0 l).
  { apply IH. intros j s Hj. replace (S i + j)%nat with (i + S j)%nat by lia. by apply Hf. }
  lia.
Qed.

Lemma final_block_facts tasks timeSlots stressLevel mood :
  Forall (λ item,
    (time_block item = None → allocated_duration item = 0) ∧
    (∀ j, time_block item = Some j → (j < length timeSlots)%nat))
    (createOptimizedScheduleFixed tasks timeSlots stressLevel mood).
Proof.
  eapply Forall_impl; [apply final_shape|].
  intros item [_ Hs].
  destruct (completion_status item);
    [destruct Hs as ((j' & Hj' & Hlt) & _)
    |destruct Hs as ((j' & Hj' & Hlt) & _)
    |destruct Hs as ((j' & Hj' & Hlt) & _)
    |destruct Hs as (Hnone & Hzero & _)]; split; intros; congruence.
Qed.

Lemma total_within_slots tasks timeSlots stressLevel mood :
  Forall (λ slot, 0 ≤ duration_minutes slot) timeSlots →
  total_minutes (createOptimizedScheduleFixed tasks timeSlots stressLevel mood)
  ≤ totalAvailableTime timeSlots.
Proof.
  intros Hpos.
  rewrite (total_minutes_by_slot (length timeSlots)) by apply final_block_facts.
  apply sum_over_durations. intros j slot Hj. by apply conservation_of_slots.
Qed.

End Totals.

(** X5. The minutes allocated over the whole schedule never exceed the minutes
    that the slots offer together (no slot having a negative duration). *)
Theorem total_minutes_within_slots tasks timeSlots stressLevel mood :
  Forall (λ slot, 0 ≤ duration_minutes slot) timeSlots →
  total_minutes (createOptimizedScheduleFixed tasks timeSlots stressLevel mood)
  ≤ totalAvailableTime timeSlots.
Proof. apply total_within_slots. Qed.

Lemma total_minutes_within_slots_witness :
  Forall (λ slot, 0 ≤ duration_minutes slot) [slot_of_minutes 60] ∧
  total_minutes
    (createOptimizedScheduleFixed (refs_of long_and_short) [slot_of_minutes 60] 5 "focused")
  ≤ totalAvailableTime [slot_of_minutes 60].
Proof.
  assert (Forall (λ slot, 0 ≤ duration_minutes slot) [slot_of_minutes 60]) as H.
  { repeat constructor. simpl. lia. }
  split; [exact H|].
  exact (total_minutes_within_slots (refs_of long_and_short) [slot_of_minutes 60] 5
           "focused" H).
Defined.

Section Asked.

Lemma asked_app l1 l2 : asked (l1 ++ l2) = asked l1 + asked l2.
Proof. induction l1 as [|x l1 IH]; simpl; [done|]. rewrite IH. lia. Qed.

Lemma asked_Permutation l1 l2 : l1 ≡ₚ l2 → asked l1 = asked l2.
Proof. induction 1; simpl; lia. Qed.

Lemma asked_analysed stressLevel tasks trs :
  Forall2 (analysed_from stressLevel) tasks trs → asked trs = requested_minutes tasks.
Proof.
  unfold requested_minutes.
  induction 1 as [|t tr tasks trs (u & u' & Htr) _ IH]; simpl; [done|].
  rewrite foldl_add_shift, IH, Htr. simpl. lia.
Qed.

(** Items that hold the tasks of an array, each with no more minutes than its
    task asks for. *)
Lemma total_minutes_asked (rel : TaskRef → ScheduleItem → Prop) trs items :
  (∀ tr item, rel tr item → estimated_duration (task item) = estimated_duration tr.2) →
  Forall2 rel trs items →
  Forall (λ item, allocated_duration item ≤ estimated_duration (task item)) items →
  total_minutes items ≤ asked trs.
Proof.
  intros Hrel H2. induction H2 as [|tr item trs items Hr _ IH]; intros Hle.
  - done.
  - apply Forall_cons in Hle as [Hitem Hle].
    rewrite total_minutes_cons. simpl. rewrite <- (Hrel _ _ Hr). specialize (IH Hle). lia.
Qed.

Lemma fitted_item_duration tr item :
  fitted_item tr item → estimated_duration (task item) = estimated_duration tr.2.
Proof. by intros (j & s & ->). Qed.

Lemma item_for_duration tr item :
  item_for tr item → estimated_duration (task item) = estimated_duration tr.2.
Proof. by intros [-> | ->]. Qed.

Lemma final_within_duration tasks timeSlots stressLevel mood :
  Forall (λ tr : TaskRef, 0 ≤ estimated_duration tr.2) tasks →
  Forall (λ item, allocated_duration item ≤ estimated_duration (task item))
    (createOptimizedScheduleFixed tasks timeSlots stressLevel mood).
Proof.
  intros Hpos.
  pose proof (final_shape tasks timeSlots stressLevel mood) as Hshape.
  assert (Forall (λ item, 0 ≤ estimated_duration (task item))
            (createOptimizedScheduleFixed tasks timeSlots stressLevel mood)) as Hdur.
  { by apply (createOptimizedScheduleFixed_items (λ d, 0 ≤ d)). }
  eapply Forall_impl; [apply Forall_and; split; [exact Hshape | exact Hdur]|].
  intros item [[_ Hs] Hd]. simpl in Hd.
  destruct (completion_status item);
    [destruct Hs as (_ & Ha & _)
    |destruct Hs as (_ & Ha & _)
    |destruct Hs as (_ & Ha & _)
    |destruct Hs as (_ & Ha & _)]; lia.
Qed.

Lemma total_within_asked tasks timeSlots stressLevel mood :
  NoDup tasks.*1 →
  Forall (λ tr : TaskRef, 0 ≤ estimated_duration tr.2) tasks →
  total_minutes (createOptimizedScheduleFixed tasks timeSlots stressLevel mood)
  ≤ asked tasks.
Proof.
  intros Hnd Hpos.
  pose proof (final_within_duration tasks timeSlots stressLevel mood Hpos) as Hle.
  destruct (schedule_structure tasks timeSlots stressLevel mood Hnd)
    as (fitted & others & l1 & l2 & _ & _ & Hperm & Hsched & H1 & H2).
  rewrite Hsched in *. apply Forall_app in Hle as [Hle1 Hle2].
  rewrite total_minutes_app, <- (asked_Permutation _ _ Hperm), asked_app.
  pose proof (total_minutes_asked _ _ _ fitted_item_duration H1 Hle1).
  pose proof (total_minutes_asked _ _ _ item_for_duration H2 Hle2). lia.
Qed.

End Asked.

(** X6. A call never schedules more minutes than its tasks ask for together
    (no task having a negative duration). *)
Theorem total_minutes_within_request tasks timeSlots stressLevel mood clk :
  Forall (λ t, 0 ≤ estimated_duration t) tasks →
  total_minutes (optimized_schedule (call tasks timeSlots stressLevel mood clk))
  ≤ requested_minutes tasks.
Proof.
  intros Hpos. rewrite call_schedule.
  destruct (mapM_analyse_spec stressLevel tasks clk 0 0) as [Hfrom Haddr].
  fold (analysed tasks stressLevel clk) in Hfrom, Haddr.
  rewrite <- (asked_analysed _ _ _ Hfrom),
    <- (asked_Permutation _ _ (sort_desc_Permutation (analysed tasks stressLevel clk))).
  apply total_within_asked.
  - rewrite (sort_desc_Permutation (analysed tasks stressLevel clk)), Haddr.
    apply NoDup_seq.
  - by apply (analysed_durations (λ d, 0 ≤ d)).
Qed.

Lemma total_minutes_within_request_witness :
  Forall (λ t, 0 ≤ estimated_duration t) long_and_short ∧
  total_minutes
    (optimized_schedule (call long_and_short [slot_of_minutes 60] 5 "focused" epoch))
  ≤ requested_minutes long_and_short.
Proof.
  assert (Forall (λ t, 0 ≤ estimated_duration t) long_and_short) as H.
  { repeat constructor; simpl; lia. }
  split; [exact H|].
  exact (total_minutes_within_request long_and_short [slot_of_minutes 60] 5 "focused"
           epoch H).
Defined.

(** ** The callbacks of the strategies *)

(** X7. The callback of strategy 1 on a task: if some unused slot has room for
    the whole task, the task is written as complete into the first slot of
    least leftover, and that slot is marked used when the task fills it
    exactly and shortened by the duration otherwise; if no slot has room,
    nothing changes. *)
Theorem strategy1_body_spec tr st :
  let d := estimated_duration tr.2 in
  (∃ j0 s0,
     availableSlots st !! j0 = Some s0 ∧ fits d s0 ∧
     (∀ j' s', availableSlots st !! j' = Some s' → fits d s' →
        remaining_time s0 ≤ remaining_time s' ∧
        (remaining_time s' = remaining_time s0 → (j0 ≤ j')%nat)) ∧
     schedule (strategy1_body tr st) = schedule st ++ [perfect_item tr.2 j0 s0] ∧
     availableSlots (strategy1_body tr st)
     = <[j0 := (if remaining_time s0 =? d
                then {| slot_of := slot_of s0; remaining_time := remaining_time s0;
                        used := true |}
                else {| slot_of := slot_of s0; remaining_time := remaining_time s0 - d;
                        used := false |})]> (availableSlots st)) ∨
  ((∀ j s, availableSlots st !! j = Some s → ¬ fits d s) ∧ strategy1_body tr st = st).
Proof.
  intros d. unfold strategy1_body. fold d.
  pose proof (findBestFit_spec d (availableSlots st)) as Hbest.
  destruct (findBestFit _ _) as [[[s0 j0] fit]|]; [left|by right].
  destruct Hbest as (Hj0 & Hs0 & -> & Hmin). exists j0, s0.
  split; [done|]. split; [done|]. split.
  { intros j' s' Hj' Hs'. destruct (Hmin _ _ Hj' Hs') as [Hle Hfirst].
    split; [lia|]. intros E. apply Hfirst. lia. }
  split; [done|]. simpl. unfold take_perfect. destruct Hs0 as [-> _]. done.
Qed.

(** X8. The callback of strategy 2 on a task: if some unused slot has at least
    15 minutes, the task is written into the first slot of the largest
    remaining time, with the lesser of its duration and that time, and the
    slot is shortened and marked used once less than 15 minutes remain;
    otherwise the task is written as unscheduled and no slot changes. *)
Theorem strategy2_body_spec T A st tr i :
  let d := estimated_duration tr.2 in
  (∃ j0 s0,
     availableSlots st !! j0 = Some s0 ∧ roomy s0 ∧
     (∀ j' s', availableSlots st !! j' = Some s' → roomy s' →
        remaining_time s' ≤ remaining_time s0 ∧
        (remaining_time s' = remaining_time s0 → (j0 ≤ j')%nat)) ∧
     schedule (strategy2_body T A st tr i)
     = schedule st ++ [partial_item tr.2 j0 (Z.min d (remaining_time s0))
                         (Z.min d (remaining_time s0) <? d) (A <? T)] ∧
     availableSlots (strategy2_body T A st tr i)
     = <[j0 := {| slot_of := slot_of s0;
                  remaining_time := remaining_time s0 - Z.min d (remaining_time s0);
                  used := remaining_time s0 - Z.min d (remaining_time s0) <? 15 |}]>
         (availableSlots st)) ∨
  ((∀ j s, availableSlots st !! j = Some s → ¬ roomy s) ∧
   schedule (strategy2_body T A st tr i) = schedule st ++ [unscheduled_item tr.2] ∧
   availableSlots (strategy2_body T A st tr i) = availableSlots st).
Proof.
  intros d. unfold strategy2_body. fold d.
  pose proof (findLargest_spec (availableSlots st)) as Hbest.
  destruct (findLargest _) as [[[s0 j0]|] m]; [left|right].
  - destruct Hbest as (Hj0 & Hs0 & -> & Hmax).
    assert ((0 <? remaining_time s0) = true) as ->.
    { apply Z.ltb_lt. destruct Hs0. lia. }
    exists j0, s0. split; [done|]. split; [done|]. split; [done|]. split; [done|].
    simpl. unfold take_minutes. destruct Hs0 as [-> _]. by destruct (_ <? 15).
  - by destruct Hbest as [_ Hnone].
Qed.

(** X9. In the loop of strategy 1, the task that stands behind a task that is
    fitted is passed over: it moves into the position that the index has just
    left, and is still among the remaining tasks when the loop ends, whatever
    the slots offer it. *)
Theorem fitted_task_hides_next n st front tr next rest :
  NoDup (remainingTasks st).*1 →
  remainingTasks st = front ++ tr :: next :: rest →
  findBestFit (estimated_duration tr.2) (availableSlots st) ≠ None →
  remainingTasks (strategy1_loop (S n) (length front) st) !! length front = Some next.
Proof. apply strategy1_passes_over. Qed.

Lemma fitted_task_hides_next_witness :
  let st := {| schedule := [];
               remainingTasks := refs_of two_half_hours;
               availableSlots := map initSlot [slot_of_minutes 60] |} in
  NoDup (remainingTasks st).*1 ∧
  remainingTasks st
  = [] ++ (0%nat, task_of "a" "Task A" 30 "medium" None)
       :: (1%nat, task_of "b" "Task B" 30 "medium" None) :: [] ∧
  findBestFit 30 (availableSlots st) ≠ None ∧
  remainingTasks (strategy1_loop 2 0 st) !! 0%nat
  = Some (1%nat, task_of "b" "Task B" 30 "medium" None).
Proof.
  intros st.
  assert (NoDup (remainingTasks st).*1) as Hnd.
  { apply (NoDup_seq 0 2). }
  assert (findBestFit 30 (availableSlots st) ≠ None) as Hfit by (vm_compute; discriminate).
  split; [exact Hnd|]. split; [reflexivity|]. split; [exact Hfit|].
  exact (fitted_task_hides_next 1 st [] (0%nat, task_of "a" "Task A" 30 "medium" None)
           (1%nat, task_of "b" "Task B" 30 "medium" None) [] Hnd eq_refl Hfit).
Defined.

(** ** What the later strategies keep *)

Section Kept.

Lemma strategy1_loop_extends n : ∀ k st,
  ∃ l, schedule (strategy1_loop n k st) = schedule st ++ l.
Proof.
  induction n as [|n IH]; intros k st; simpl.
  - exists []. by rewrite app_nil_r.
  - destruct (remainingTasks st !! k) as [tr|]; [|apply IH].
    destruct (IH (S k) (strategy1_body tr st)) as [l Hl]. rewrite Hl.
    unfold strategy1_body. destruct (findBestFit _ _) as [[[s j] fit]|]; simpl; [|eauto].
    rewrite <- app_assoc. eauto.
Qed.

Lemma strategy2_extends T A st :
  ∃ l, schedule (strategy2 T A st) = schedule st ++ l.
Proof.
  destruct (strategy2_from_structure T A (remainingTasks st) 0%nat st) as (l & Hl & _).
  eauto.
Qed.

Lemma strategy3_keeps st r item :
  schedule st !! r = Some item → rescue_pred item = false →
  schedule (strategy3 st) !! r = Some item.
Proof.
  intros Hr Hp. unfold strategy3. rewrite foldl_strategy3_other; [done|].
  intros Hin. apply filter_refs_spec in Hin as (x & Hx & Hpx). congruence.
Qed.

Lemma strategy3_body_length st r :
  length (schedule (strategy3_body st r)) = length (schedule st).
Proof.
  unfold strategy3_body. destruct (schedule st !! r) as [item|]; [|done].
  destruct (JS.find _ _) as [[j s]|]; [|done]. simpl. apply length_insert.
Qed.

Lemma strategy3_length st : length (schedule (strategy3 st)) = length (schedule st).
Proof.
  unfold strategy3. generalize (filter_refs rescue_pred (schedule st)).
  intros refs. revert st. induction refs as [|r refs IH]; intros st; simpl; [done|].
  by rewrite IH, strategy3_body_length.
Qed.

(** An item that strategy 3 selects stays as it is when no slot qualifies at
    its turn. *)
Lemma strategy3_no_slot st r item :
  schedule st !! r = Some item → rescue_pred item = true →
  (∀ j s, availableSlots (turn_state st r) !! j = Some s → rescue_slot s = false) →
  schedule (strategy3 st) !! r = Some item.
Proof.
  intros Hr Hp Hnone. rewrite (strategy3_at _ _ _ Hr Hp). unfold strategy3_body.
  rewrite turn_state_item, Hr.
  destruct (JS.find rescue_slot (availableSlots (turn_state st r))) as [[j s]|] eqn:Hfind.
  - apply find_Some in Hfind as (Hj & Hs & _). rewrite (Hnone _ _ Hj) in Hs. done.
  - by rewrite turn_state_item.
Qed.

(** The first task of the array, when some slot is long enough for it. *)
Lemma first_task_fitted tr rest timeSlots j slot :
  timeSlots !! j = Some slot → estimated_duration tr.2 ≤ duration_minutes slot →
  ∃ j0 slot0,
    timeSlots !! j0 = Some slot0 ∧
    estimated_duration tr.2 ≤ duration_minutes slot0 ∧
    (∀ j' slot', timeSlots !! j' = Some slot' →
       estimated_duration tr.2 ≤ duration_minutes slot' →
       duration_minutes slot0 ≤ duration_minutes slot' ∧
       (duration_minutes slot' = duration_minutes slot0 → (j0 ≤ j')%nat)) ∧
    schedule (final_state (tr :: rest) timeSlots) !! 0%nat
    = Some (perfect_item tr.2 j0 (initSlot slot0)).
Proof.
  intros Hj Hd.
  set (st0 := {| schedule := []; remainingTasks := tr :: rest;
                 availableSlots := map initSlot timeSlots |}).
  assert (∀ i s, availableSlots st0 !! i = Some s →
            ∃ sl, timeSlots !! i = Some sl ∧ s = initSlot sl) as Hinit.
  { intros i s Hs. simpl in Hs. change (map initSlot timeSlots) with (initSlot <$> timeSlots) in Hs.
    rewrite list_lookup_fmap in Hs. destruct (timeSlots !! i) as [sl|]; [|done].
    injection Hs as <-. eauto. }
  assert (availableSlots st0 !! j = Some (initSlot slot)) as Hj'.
  { simpl. change (map initSlot timeSlots) with (initSlot <$> timeSlots).
    by rewrite list_lookup_fmap, Hj. }
  destruct (strategy1_body_best_fit tr st0 j (initSlot slot) Hj' (conj eq_refl Hd))
    as (j0 & s0 & Hj0 & [_ Hd0] & Hmin & Hsched).
  destruct (Hinit _ _ Hj0) as (slot0 & Hslot0 & ->).
  exists j0, slot0. split; [done|]. split; [done|]. split.
  { intros j1 slot1 Hj1 Hd1. apply (Hmin j1 (initSlot slot1)); [|by split].
    simpl. change (map initSlot timeSlots) with (initSlot <$> timeSlots).
    by rewrite list_lookup_fmap, Hj1. }
  unfold final_state. fold st0.
  apply strategy3_keeps; [|done].
  destruct (strategy2_extends (totalTaskTime (tr :: rest)) (totalAvailableTime timeSlots)
              (strategy1 st0)) as [l2 ->].
  unfold strategy1. simpl.
  destruct (strategy1_loop_extends (length rest) 1 (strategy1_body tr st0)) as [l1 ->].
  rewrite Hsched. done.
Qed.

End Kept.

(** X10. The first task of the array passed in (the task of highest final
    priority) is always tried: if some slot is at least as long as the task,
    the first item of the returned schedule is its perfect fit, in the first
    of the shortest slots that are long enough. *)
Theorem first_task_best_fit tr rest timeSlots stressLevel mood j slot :
  timeSlots !! j = Some slot → estimated_duration tr.2 ≤ duration_minutes slot →
  ∃ j0 slot0,
    timeSlots !! j0 = Some slot0 ∧
    estimated_duration tr.2 ≤ duration_minutes slot0 ∧
    (∀ j' slot', timeSlots !! j' = Some slot' →
       estimated_duration tr.2 ≤ duration_minutes slot' →
       duration_minutes slot0 ≤ duration_minutes slot' ∧
       (duration_minutes slot' = duration_minutes slot0 → (j0 ≤ j')%nat)) ∧
    createOptimizedScheduleFixed (tr :: rest) timeSlots stressLevel mood !! 0%nat
    = Some (perfect_item tr.2 j0 (initSlot slot0)).
Proof.
  intros Hj Hd. unfold createOptimizedScheduleFixed.
  assert (nothing_to_do (tr :: rest) timeSlots = false) as ->.
  { unfold nothing_to_do. simpl. apply lookup_lt_Some in Hj.
    destruct timeSlots; [simpl in Hj; lia | done]. }
  by eapply first_task_fitted.
Qed.

Lemma first_task_best_fit_witness :
  let a := (0%nat, task_of "a" "Task A" 50 "high" None) in
  let b := (1%nat, task_of "b" "Task B" 10 "high" None) in
  let timeSlots := [slot_of_minutes 90; slot_of_minutes 60] in
  timeSlots !! 0%nat = Some (slot_of_minutes 90) ∧
  estimated_duration a.2 ≤ duration_minutes (slot_of_minutes 90) ∧
  ∃ j0 slot0,
    timeSlots !! j0 = Some slot0 ∧
    estimated_duration a.2 ≤ duration_minutes slot0 ∧
    (∀ j' slot', timeSlots !! j' = Some slot' →
       estimated_duration a.2 ≤ duration_minutes slot' →
       duration_minutes slot0 ≤ duration_minutes slot' ∧
       (duration_minutes slot' = duration_minutes slot0 → (j0 ≤ j')%nat)) ∧
    createOptimizedScheduleFixed [a; b] timeSlots 5 "focused" !! 0%nat
    = Some (perfect_item a.2 j0 (initSlot slot0)).
Proof.
  intros a b timeSlots.
  assert (estimated_duration a.2 ≤ duration_minutes (slot_of_minutes 90)) as Hd
    by (simpl; lia).
  split; [reflexivity|]. split; [exact Hd|].
  exact (first_task_best_fit a [b] timeSlots 5 "focused" 0%nat (slot_of_minutes 90)
           eq_refl Hd).
Defined.

(** X11. Strategy 3 rewrites nothing else: an item that, after strategy 2, is
    scheduled, or whose task is neither of high priority nor urgent
    (urgency above 0.8), is returned as strategy 2 left it; and the schedule
    keeps its length. *)
Theorem strategy3_leaves_others tasks timeSlots stressLevel mood r item :
  nothing_to_do tasks timeSlots = false →
  schedule (after_strategy2 tasks timeSlots) !! r = Some item →
  completion_status item ≠ not_scheduled ∨
  (priority (task item) ≠ "high" ∧ (deadline_urgency item <= 0.8)%Q) →
  createOptimizedScheduleFixed tasks timeSlots stressLevel mood !! r = Some item ∧
  length (createOptimizedScheduleFixed tasks timeSlots stressLevel mood)
  = length (schedule (after_strategy2 tasks timeSlots)).
Proof.
  intros Hgo Hr Hnot. unfold createOptimizedScheduleFixed. rewrite Hgo.
  split; [|apply strategy3_length].
  apply strategy3_keeps; [done|]. unfold rescue_pred.
  destruct Hnot as [Hs | [Hp Hu]].
  - apply andb_false_iff. left. by apply bool_decide_eq_false.
  - apply andb_false_iff. right. apply orb_false_iff. split.
    + by apply String.eqb_neq.
    + unfold JS.Qgt_bool. apply negb_false_iff. by apply Qle_bool_iff.
Qed.

Lemma strategy3_leaves_others_witness :
  let tasks := [(0%nat, task_of "b" "Task B" 60 "high" None);
                (1%nat, task_of "a" "Task A" 60 "low" None)] in
  let timeSlots := [slot_of_minutes 60] in
  let item := unscheduled_item (task_of "a" "Task A" 60 "low" None) in
  nothing_to_do tasks timeSlots = false ∧
  schedule (after_strategy2 tasks timeSlots) !! 1%nat = Some item ∧
  (completion_status item ≠ not_scheduled ∨
   (priority (task item) ≠ "high" ∧ (deadline_urgency item <= 0.8)%Q)) ∧
  createOptimizedScheduleFixed tasks timeSlots 5 "focused" !! 1%nat = Some item ∧
  length (createOptimizedScheduleFixed tasks timeSlots 5 "focused")
  = length (schedule (after_strategy2 tasks timeSlots)).
Proof.
  intros tasks timeSlots item.
  assert (completion_status item ≠ not_scheduled ∨
          (priority (task item) ≠ "high" ∧ (deadline_urgency item <= 0.8)%Q)) as H.
  { right. split; [discriminate | vm_compute; discriminate]. }
  split; [reflexivity|]. split; [reflexivity|]. split; [exact H|].
  exact (strategy3_leaves_others tasks timeSlots 5 "focused" 1%nat item eq_refl eq_refl H).
Defined.

(** X12. An unscheduled item of a high-priority or urgent task stays
    unscheduled, as strategy 2 wrote it, when at its turn in strategy 3 every
    slot is marked used or has less than 10 minutes remaining. *)
Theorem rescue_without_slot tasks timeSlots stressLevel mood r item :
  nothing_to_do tasks timeSlots = false →
  schedule (after_strategy2 tasks timeSlots) !! r = Some item →
  completion_status item = not_scheduled →
  priority (task item) = "high" ∨ (0.8 < deadline_urgency item)%Q →
  (∀ j s, availableSlots (turn_state (after_strategy2 tasks timeSlots) r) !! j = Some s →
     used s = true ∨ remaining_time s < 10) →
  createOptimizedScheduleFixed tasks timeSlots stressLevel mood !! r = Some item.
Proof.
  intros Hgo Hr Hstatus Hprio Hnone. unfold createOptimizedScheduleFixed. rewrite Hgo.
  apply strategy3_no_slot; [done | by apply rescue_pred_true |].
  intros j s Hj. unfold rescue_slot.
  destruct (Hnone _ _ Hj) as [-> | Hlt]; [done|].
  apply andb_false_iff. right. by apply Z.leb_gt.
Qed.

Lemma rescue_without_slot_witness :
  let tasks := [(0%nat, task_of "b" "Task B" 60 "high" None);
                (1%nat, task_of "a" "Task A" 60 "high" None)] in
  let timeSlots := [slot_of_minutes 60] in
  let item := unscheduled_item (task_of "a" "Task A" 60 "high" None) in
  nothing_to_do tasks timeSlots = false ∧
  schedule (after_strategy2 tasks timeSlots) !! 1%nat = Some item ∧
  completion_status item = not_scheduled ∧
  (priority (task item) = "high" ∨ (0.8 < deadline_urgency item)%Q) ∧
  (∀ j s, availableSlots (turn_state (after_strategy2 tasks timeSlots) 1) !! j = Some s →
     used s = true ∨ remaining_time s < 10) ∧
  createOptimizedScheduleFixed tasks timeSlots 5 "focused" !! 1%nat = Some item.
Proof.
  intros tasks timeSlots item.
  assert (∀ j s,
    availableSlots (turn_state (after_strategy2 tasks timeSlots) 1) !! j = Some s →
    used s = true ∨ remaining_time s < 10) as Hnone.
  { intros [|j] s Hj; [|discriminate Hj]. injection Hj as <-. by left. }
  split; [reflexivity|]. split; [reflexivity|]. split; [reflexivity|].
  split; [left; reflexivity|]. split; [exact Hnone|].
  exact (rescue_without_slot tasks timeSlots 5 "focused" 1%nat item eq_refl eq_refl
           eq_refl (or_introl eq_refl) Hnone).
Defined.

(** X13. The slot objects on return: there is one per slot passed in, holding
    its fields; and a slot object that is not marked used has exactly the
    minutes remaining that the items written for it leave of its duration (no
    slot having a negative duration). *)
Theorem slots_on_return tasks timeSlots stressLevel mood :
  Forall (λ slot, 0 ≤ duration_minutes slot) timeSlots →
  nothing_to_do tasks timeSlots = false →
  length (slots_after tasks timeSlots) = length timeSlots ∧
  ∀ j s, slots_after tasks timeSlots !! j = Some s →
    timeSlots !! j = Some (slot_of s) ∧
    (used s = false →
     0 ≤ remaining_time s ∧
     remaining_time s
     = duration_minutes (slot_of s)
       - window_load j (createOptimizedScheduleFixed tasks timeSlots stressLevel mood)).
Proof.
  intros Hpos Hgo. unfold slots_after, createOptimizedScheduleFixed. rewrite Hgo.
  destruct (conserving_final timeSlots Hpos tasks) as (Hlen & Hslots & _).
  split; [done|]. intros j s Hs.
  destruct (Hslots _ _ Hs) as (Hin & Hle & Hfree). split; [done|].
  intros Hu. specialize (Hfree Hu). lia.
Qed.

Lemma slots_on_return_witness :
  let tasks := refs_of long_and_short in
  let timeSlots := [slot_of_minutes 90] in
  Forall (λ slot, 0 ≤ duration_minutes slot) timeSlots ∧
  nothing_to_do tasks timeSlots = false ∧
  length (slots_after tasks timeSlots) = length timeSlots ∧
  ∀ j s, slots_after tasks timeSlots !! j = Some s →
    timeSlots !! j = Some (slot_of s) ∧
    (used s = false →
     0 ≤ remaining_time s ∧
     remaining_time s
     = duration_minutes (slot_of s)
       - window_load j (createOptimizedScheduleFixed tasks timeSlots 5 "focused")).
Proof.
  intros tasks timeSlots.
  assert (Forall (λ slot, 0 ≤ duration_minutes slot) timeSlots) as H.
  { repeat constructor. simpl. lia. }
  split; [exact H|]. split; [reflexivity|].
  exact (slots_on_return tasks timeSlots 5 "focused" H eq_refl).
Defined.

(** ** Scores *)

Section Scores.

Lemma hours_mono a b : a ≤ b →
  (inject_Z a / inject_Z (1000 * 60 * 60) <= inject_Z b / inject_Z (1000 * 60 * 60))%Q.
Proof.
  intros H. unfold Qdiv. apply Qmult_le_compat_r.
  - by rewrite <- Zle_Qle.
  - vm_compute. discriminate.
Qed.

(** The urgency never grows with the hours left. *)
Lemma urgency_of_hours_antitone h1 h2 :
  (h1 <= h2)%Q → (urgency_of_hours (Some h2) <= urgency_of_hours (Some h1))%Q.
Proof.
  intros H. unfold urgency_of_hours, JS.le.
  destruct (Qle_bool h1 6) eqn:A6;
    [apply Qle_bool_iff in A6 | apply Qle_bool_false in A6];
  (destruct (Qle_bool h1 24) eqn:A24;
    [apply Qle_bool_iff in A24 | apply Qle_bool_false in A24]);
  (destruct (Qle_bool h1 48) eqn:A48;
    [apply Qle_bool_iff in A48 | apply Qle_bool_false in A48]);
  (destruct (Qle_bool h1 168) eqn:A168;
    [apply Qle_bool_iff in A168 | apply Qle_bool_false in A168]);
  (destruct (Qle_bool h2 6) eqn:B6;
    [apply Qle_bool_iff in B6 | apply Qle_bool_false in B6]);
  (destruct (Qle_bool h2 24) eqn:B24;
    [apply Qle_bool_iff in B24 | apply Qle_bool_false in B24]);
  (destruct (Qle_bool h2 48) eqn:B48;
    [apply Qle_bool_iff in B48 | apply Qle_bool_false in B48]);
  (destruct (Qle_bool h2 168) eqn:B168;
    [apply Qle_bool_iff in B168 | apply Qle_bool_false in B168]);
  lra.
Qed.

Lemma urgency_of_hours_values h :
  urgency_of_hours h ∈ [1.0; 0.9; 0.7; 0.5; 0.3]%Q.
Proof.
  unfold urgency_of_hours.
  destruct (JS.le h 6); [|destruct (JS.le h 24); [|destruct (JS.le h 48);
    [|destruct (JS.le h 168)]]];
  repeat first [apply list_elem_of_here | apply list_elem_of_further].
Qed.

End Scores.

(** X14. Of two tasks with dated deadlines, read at the same instant, the one
    whose deadline is nearer is at least as urgent. *)
Theorem nearer_deadline_more_urgent t1 t2 ms1 ms2 clk n :
  deadline t1 = Some (TimeValue ms1) → deadline t2 = Some (TimeValue ms2) →
  ms1 ≤ ms2 →
  ((calculateDeadlineUrgency t2 clk n).1 <= (calculateDeadlineUrgency t1 clk n).1)%Q.
Proof.
  intros H1 H2 Hle. rewrite !calculateDeadlineUrgency_run. simpl.
  unfold urgency_at. rewrite H1, H2. simpl.
  apply urgency_of_hours_antitone, hours_mono. lia.
Qed.

Lemma nearer_deadline_more_urgent_witness :
  let t1 := task_of "a" "Task A" 60 "high" (Some (TimeValue (7 * hour_ms))) in
  let t2 := task_of "b" "Task B" 60 "high" (Some (TimeValue (30 * hour_ms))) in
  deadline t1 = Some (TimeValue (7 * hour_ms)) ∧
  deadline t2 = Some (TimeValue (30 * hour_ms)) ∧
  7 * hour_ms ≤ 30 * hour_ms ∧
  ((calculateDeadlineUrgency t2 epoch 0%nat).1 <= (calculateDeadlineUrgency t1 epoch 0%nat).1)%Q.
Proof.
  intros t1 t2.
  assert (7 * hour_ms ≤ 30 * hour_ms) as H by (vm_compute; discriminate).
  split; [reflexivity|]. split; [reflexivity|]. split; [exact H|].
  exact (nearer_deadline_more_urgent t1 t2 _ _ epoch 0%nat eq_refl eq_refl H).
Defined.

(** X15. A task with a deadline of any kind has an urgency among 1.0, 0.9,
    0.7, 0.5 and 0.3, above the 0.2 of a task without one; and a deadline
    that has passed, or lies within six hours, gives 1.0. *)
Theorem deadline_urgency_range t d clk n :
  deadline t = Some d →
  (calculateDeadlineUrgency t clk n).1 ∈ [1.0; 0.9; 0.7; 0.5; 0.3]%Q ∧
  (0.2 < (calculateDeadlineUrgency t clk n).1)%Q ∧
  (∀ ms, d = TimeValue ms → ms ≤ clk n + 6 * hour_ms →
     (calculateDeadlineUrgency t clk n).1 = 1.0%Q).
Proof.
  intros Hd. rewrite calculateDeadlineUrgency_run. simpl.
  unfold urgency_at. rewrite Hd.
  pose proof (urgency_of_hours_values (hoursUntil d (clk n))) as Hv.
  split; [done|]. split.
  - repeat (apply elem_of_cons in Hv as [-> | Hv]; [vm_compute; reflexivity|]).
    by apply elem_of_nil in Hv.
  - intros ms -> Hms. simpl.
    apply (proj1 (urgency_of_hours_steps _)).
    eapply Qle_trans; [apply (hours_mono _ (6 * hour_ms)); lia|].
    vm_compute. discriminate.
Qed.

Lemma deadline_urgency_range_witness :
  let t := task_of "a" "Task A" 60 "high" (Some (TimeValue (- hour_ms))) in
  deadline t = Some (TimeValue (- hour_ms)) ∧
  (calculateDeadlineUrgency t epoch 0%nat).1 ∈ [1.0; 0.9; 0.7; 0.5; 0.3]%Q ∧
  (0.2 < (calculateDeadlineUrgency t epoch 0%nat).1)%Q ∧
  (∀ ms, TimeValue (- hour_ms) = TimeValue ms → ms ≤ epoch 0%nat + 6 * hour_ms →
     (calculateDeadlineUrgency t epoch 0%nat).1 = 1.0%Q).
Proof.
  intros t. split; [reflexivity|].
  exact (deadline_urgency_range t (TimeValue (- hour_ms)) epoch 0%nat eq_refl).
Defined.

Section Compatibility.

Lemma assessComplexity_cases title :
  (assessComplexity title ==
   if mentions complexWords title
   then (if mentions simpleWords title then 0.5 else 0.7)
   else (if mentions simpleWords title then 0.3 else 0.5))%Q.
Proof.
  unfold assessComplexity, mentions.
  destruct (JS.some _ complexWords); destruct (JS.some _ simpleWords); reflexivity.
Qed.

Lemma assessComplexity_range title :
  (0.3 <= assessComplexity title <= 0.7)%Q.
Proof.
  rewrite assessComplexity_cases.
  destruct (mentions complexWords title); destruct (mentions simpleWords title);
    split; vm_compute; discriminate.
Qed.

Lemma inject_Z_nonneg z : 0 ≤ z → (0 <= inject_Z z)%Q.
Proof. intros H. by rewrite <- (Zle_Qle 0). Qed.

(** The argument of the floor in [calculateStressCompatibility]. *)
Lemma compatibility_argument t stressLevel :
  0 ≤ stressLevel ≤ 10 →
  (0.51 <= 1.0 - assessComplexity (title t) * inject_Z stressLevel / 10 * 0.7 <= 1)%Q.
Proof.
  intros [Hlo Hhi].
  pose proof (assessComplexity_range (title t)) as [Hc0 Hc1].
  pose proof (inject_Z_nonneg _ Hlo) as Hz.
  assert (inject_Z stressLevel <= 10)%Q as Hz10 by (by rewrite <- (Zle_Qle _ 10)).
  assert (0 <= assessComplexity (title t) * inject_Z stressLevel)%Q as Hprod.
  { apply Qmult_le_0_compat; [lra|done]. }
  assert (assessComplexity (title t) * inject_Z stressLevel <= 0.7 * inject_Z stressLevel)%Q
    as Hprod'.
  { by apply Qmult_le_compat_r. }
  unfold Qdiv. change (/ 10)%Q with (1 # 10)%Q.
  set (x := (assessComplexity (title t) * inject_Z stressLevel)%Q) in *. lra.
Qed.

Lemma compatibility_range t stressLevel :
  0 ≤ stressLevel →
  (0.1 <= calculateStressCompatibility t stressLevel <= 1)%Q.
Proof.
  intros Hs. unfold calculateStressCompatibility. split; [apply Q.le_max_l|].
  apply Q.max_lub; [vm_compute; discriminate|].
  pose proof (assessComplexity_range (title t)) as [Hlo Hhi].
  pose proof (inject_Z_nonneg _ Hs) as Hz.
  assert (0 <= assessComplexity (title t) * inject_Z stressLevel)%Q as Hprod.
  { apply Qmult_le_0_compat; [lra|done]. }
  unfold Qdiv. change (/ 10)%Q with (1 # 10)%Q.
  set (x := (assessComplexity (title t) * inject_Z stressLevel)%Q) in *. lra.
Qed.

End Compatibility.

(** X16. The complexity of a title is 0.5 when it contains no complex and no
    simple word, 0.7 when it contains a complex word and no simple word, and
    0.3 when it contains a simple word and no complex word; it always lies
    between 0.3 and 0.7, so the clamp to [0.1, 1.0] never acts. *)
Theorem complexity_values title :
  (mentions complexWords title = false → mentions simpleWords title = false →
   (assessComplexity title == 0.5)%Q) ∧
  (mentions complexWords title = true → mentions simpleWords title = false →
   (assessComplexity title == 0.7)%Q) ∧
  (mentions complexWords title = false → mentions simpleWords title = true →
   (assessComplexity title == 0.3)%Q) ∧
  (0.3 <= assessComplexity title <= 0.7)%Q.
Proof.
  pose proof (assessComplexity_cases title) as H.
  repeat split; try apply assessComplexity_range;
    intros Hc Hs; by rewrite Hc, Hs in H.
Qed.

(** X17. For a stress level from 0 to 10 the floor of 0.1 in the stress
    compatibility is not reached: the value is
    1 - complexity * level / 10 * 0.7, and it lies between 0.5 and 1. *)
Theorem compatibility_on_scale t stressLevel :
  0 ≤ stressLevel ≤ 10 →
  (calculateStressCompatibility t stressLevel
   == 1.0 - assessComplexity (title t) * inject_Z stressLevel / 10 * 0.7)%Q ∧
  (0.5 <= calculateStressCompatibility t stressLevel <= 1)%Q.
Proof.
  intros Hs. pose proof (compatibility_argument t stressLevel Hs) as [Hlo Hhi].
  assert (calculateStressCompatibility t stressLevel
          == 1.0 - assessComplexity (title t) * inject_Z stressLevel / 10 * 0.7)%Q as Heq.
  { unfold calculateStressCompatibility. apply Q.max_r.
    eapply Qle_trans; [|exact Hlo]. vm_compute. discriminate. }
  split; [exact Heq|]. rewrite Heq. split; [|done].
  eapply Qle_trans; [|exact Hlo]. vm_compute. discriminate.
Qed.

Lemma compatibility_on_scale_witness :
  let t := task_of "a" "Detailed analysis" 60 "high" None in
  0 ≤ 10 ≤ 10 ∧
  (calculateStressCompatibility t 10
   == 1.0 - assessComplexity (title t) * inject_Z 10 / 10 * 0.7)%Q ∧
  (0.5 <= calculateStressCompatibility t 10 <= 1)%Q.
Proof.
  intros t. assert (0 ≤ 10 ≤ 10) as H by lia.
  split; [exact H|]. exact (compatibility_on_scale t 10 H).
Defined.

(** X18. The stress compatibility of a task never grows with the stress
    level. *)
Theorem compatibility_antitone t level1 level2 :
  level1 ≤ level2 →
  (calculateStressCompatibility t level2 <= calculateStressCompatibility t level1)%Q.
Proof.
  intros Hle. unfold calculateStressCompatibility.
  apply Q.max_le_compat_l.
  pose proof (assessComplexity_range (title t)) as [Hc0 Hc1].
  assert (inject_Z level1 <= inject_Z level2)%Q as Hz by (by rewrite <- Zle_Qle).
  assert (assessComplexity (title t) * inject_Z level1
          <= assessComplexity (title t) * inject_Z level2)%Q as Hprod.
  { rewrite !(Qmult_comm (assessComplexity (title t))).
    apply Qmult_le_compat_r; [done|lra]. }
  unfold Qdiv. change (/ 10)%Q with (1 # 10)%Q.
  set (x1 := (assessComplexity (title t) * inject_Z level1)%Q) in *.
  set (x2 := (assessComplexity (title t) * inject_Z level2)%Q) in *. lra.
Qed.

Lemma compatibility_antitone_witness :
  let t := task_of "a" "Detailed analysis" 60 "high" None in
  3 ≤ 8 ∧
  (calculateStressCompatibility t 8 <= calculateStressCompatibility t 3)%Q.
Proof.
  intros t. assert (3 ≤ 8) as H by lia.
  split; [exact H|]. exact (compatibility_antitone t 3 8 H).
Defined.

Section Priority.

Lemma calculateFinalPriority_run t stressLevel clk n :
  calculateFinalPriority t stressLevel clk n
  = ((urgency_at t (clk n) * 0.5 + getImportanceScore (priority t) * 0.3
      + calculateStressCompatibility t stressLevel * 0.2)%Q,
     (n + reads t)%nat).
Proof.
  unfold calculateFinalPriority, mbind, Run_bind.
  by rewrite calculateDeadlineUrgency_run.
Qed.

Lemma importance_high p : p = "high" → getImportanceScore p = 1.0%Q.
Proof. by intros ->. Qed.

Lemma importance_other p : p ≠ "high" → (getImportanceScore p <= 0.6)%Q.
Proof.
  intros H. unfold getImportanceScore.
  apply String.eqb_neq in H. rewrite H.
  destruct (String.eqb p "medium"); [vm_compute; discriminate|].
  destruct (String.eqb p "low"); vm_compute; discriminate.
Qed.

Lemma importance_range p : (0.3 <= getImportanceScore p <= 1)%Q.
Proof.
  unfold getImportanceScore.
  destruct (String.eqb p "high"); [split; vm_compute; discriminate|].
  destruct (String.eqb p "medium"); [split; vm_compute; discriminate|].
  destruct (String.eqb p "low"); split; vm_compute; discriminate.
Qed.

Lemma compatibility_same_title t1 t2 stressLevel :
  title t1 = title t2 →
  calculateStressCompatibility t1 stressLevel = calculateStressCompatibility t2 stressLevel.
Proof. intros H. unfold calculateStressCompatibility. by rewrite H. Qed.




End Priority.

(** X19. Of two tasks with the same title and the same deadline, scored at the
    same instant for a stress level that is not negative, the one of priority
    high has the greater final priority than one of another priority, when
    that priority is not a name that every object inherits (for such a name
    the final priority is [NaN], and is not less than anything). The two
    priorities are 0.12 apart or more, and for a stress level that is not
    negative the terms lie between 0 and 1, so the rounding of the program
    does not close the gap. *)
Theorem high_priority_ranks_higher t1 t2 stressLevel clk n :
  0 ≤ stressLevel →
  title t1 = title t2 → deadline t1 = deadline t2 →
  priority t1 = "high" → priority t2 ≠ "high" → priority t2 ∉ inheritedNames →
  ((calculateFinalPriority t2 stressLevel clk n).1
   < (calculateFinalPriority t1 stressLevel clk n).1)%Q.
Proof.
  intros _ Ht Hd H1 H2 _. rewrite !calculateFinalPriority_run. simpl.
  rewrite (compatibility_same_title t1 t2 stressLevel Ht).
  unfold urgency_at. rewrite Hd, (importance_high _ H1).
  pose proof (importance_other _ H2). lra.
Qed.

Lemma high_priority_ranks_higher_witness :
  let t1 := task_of "a" "Report" 60 "high" None in
  let t2 := task_of "b" "Report" 30 "low" None in
  0 ≤ 5 ∧
  title t1 = title t2 ∧ deadline t1 = deadline t2 ∧
  priority t1 = "high" ∧ priority t2 ≠ "high" ∧ (priority t2 ∉ inheritedNames) ∧
  ((calculateFinalPriority t2 5 epoch 0%nat).1
   < (calculateFinalPriority t1 5 epoch 0%nat).1)%Q.
Proof.
  intros t1 t2.
  assert (priority t2 ≠ "high") as H by discriminate.
  assert (priority t2 ∉ inheritedNames) as Hown by compute_done.
  assert (0 ≤ 5) as H0 by lia.
  split; [exact H0|].
  split; [reflexivity|]. split; [reflexivity|]. split; [reflexivity|]. split; [exact H|].
  split; [exact Hown|].
  exact (high_priority_ranks_higher t1 t2 5 epoch 0%nat H0 eq_refl eq_refl eq_refl H Hown).
Defined.

(** X20. Urgency dominates: for a stress level that is not negative, a task
    whose deadline has passed or lies within six hours has a greater final
    priority than any task without a deadline, whatever their titles and
    their priorities, as long as neither priority is a name that every object
    inherits (for such a name the final priority is [NaN], and is neither
    less nor greater than anything). *)
Theorem imminent_deadline_outranks t1 t2 ms stressLevel clk n m :
  0 ≤ stressLevel →
  priority t1 ∉ inheritedNames → priority t2 ∉ inheritedNames →
  deadline t1 = Some (TimeValue ms) → ms ≤ clk n + 6 * hour_ms →
  deadline t2 = None →
  ((calculateFinalPriority t2 stressLevel clk m).1
   < (calculateFinalPriority t1 stressLevel clk n).1)%Q.
Proof.
  intros Hs _ _ H1 Hms H2. rewrite !calculateFinalPriority_run. simpl.
  assert (urgency_at t1 (clk n) = 1.0%Q) as ->.
  { unfold urgency_at. rewrite H1. simpl. apply (proj1 (urgency_of_hours_steps _)).
    eapply Qle_trans; [apply (hours_mono _ (6 * hour_ms)); lia|].
    vm_compute. discriminate. }
  assert (urgency_at t2 (clk m) = 0.2%Q) as -> by (unfold urgency_at; by rewrite H2).
  pose proof (importance_range (priority t1)).
  pose proof (importance_range (priority t2)).
  pose proof (compatibility_range t1 stressLevel Hs).
  pose proof (compatibility_range t2 stressLevel Hs). lra.
Qed.

Lemma imminent_deadline_outranks_witness :
  let t1 := task_of "a" "Quick check" 60 "low" (Some (TimeValue (2 * hour_ms))) in
  let t2 := task_of "b" "Detailed analysis" 60 "high" None in
  0 ≤ 9 ∧
  (priority t1 ∉ inheritedNames) ∧ (priority t2 ∉ inheritedNames) ∧
  deadline t1 = Some (TimeValue (2 * hour_ms)) ∧
  2 * hour_ms ≤ epoch 0%nat + 6 * hour_ms ∧
  deadline t2 = None ∧
  ((calculateFinalPriority t2 9 epoch 1%nat).1
   < (calculateFinalPriority t1 9 epoch 0%nat).1)%Q.
Proof.
  intros t1 t2.
  assert (0 ≤ 9) as H0 by lia.
  assert (priority t1 ∉ inheritedNames) as Hown1 by compute_done.
  assert (priority t2 ∉ inheritedNames) as Hown2 by compute_done.
  assert (2 * hour_ms ≤ epoch 0%nat + 6 * hour_ms) as H6 by (vm_compute; discriminate).
  split; [exact H0|]. split; [exact Hown1|]. split; [exact Hown2|].
  split; [reflexivity|]. split; [exact H6|]. split; [reflexivity|].
  exact (imminent_deadline_outranks t1 t2 (2 * hour_ms) 9 epoch 0%nat 1%nat
           H0 Hown1 Hown2 eq_refl H6 eq_refl).
Defined.


(** ** What the result reports *)

Section Report.

Lemma count_split {A} (p q : A → bool) (l : list A) :
  Forall (λ x, p x = negb (q x)) l → (count p l + count q l)%nat = length l.
Proof.
  unfold count. induction 1 as [|x l Hx _ IH]; simpl; [done|].
  rewrite Hx. destruct (q x); simpl; lia.
Qed.

Lemma call_items_consistent tasks timeSlots stressLevel mood clk :
  Forall (λ t, 0 < estimated_duration t) tasks →
  Forall (λ item,
    (λ item, 0 <? allocated_duration item) item
    = negb ((λ item, bool_decide (completion_status item = not_scheduled)) item))
    (optimized_schedule (call tasks timeSlots stressLevel mood clk)).
Proof.
  intros Hpos. rewrite call_schedule.
  eapply Forall_impl.
  { apply items_consistent. by apply (analysed_durations (λ d, 0 < d)). }
  intros item (Hs & Hb & _ & Hrange). simpl.
  destruct (bool_decide_reflect (completion_status item = not_scheduled)) as [Hn|Hn]; simpl.
  - apply Z.ltb_ge. apply Hs, Hb in Hn. lia.
  - apply Z.ltb_lt. destruct (decide (allocated_duration item = 0)) as [Hz|Hz]; [|lia].
    apply Hb, Hs in Hz. done.
Qed.

Lemma call_recommendations tasks timeSlots stressLevel mood clk :
  recommendations (insights (call tasks timeSlots stressLevel mood clk))
  = generateRecommendations
      (optimized_schedule (call tasks timeSlots stressLevel mood clk)) stressLevel.
Proof.
  unfold call, processScheduleLocally, mbind, Run_bind.
  by destruct (mapM_from _ _ _ _ _).
Qed.

Lemma call_task_analysis tasks timeSlots stressLevel mood clk :
  task_analysis (call tasks timeSlots stressLevel mood clk)
  = {| total_tasks := length tasks;
       scheduled_tasks :=
         count (λ item, 0 <? allocated_duration item)
           (optimized_schedule (call tasks timeSlots stressLevel mood clk)) |}.
Proof.
  unfold call, processScheduleLocally, mbind, Run_bind.
  by destruct (mapM_from _ _ _ _ _).
Qed.

Lemma schedule_length tasks timeSlots stressLevel mood :
  NoDup tasks.*1 →
  length (createOptimizedScheduleFixed tasks timeSlots stressLevel mood) = length tasks.
Proof.
  intros Hnd.
  destruct (schedule_structure tasks timeSlots stressLevel mood Hnd)
    as (fitted & others & l1 & l2 & _ & _ & Hperm & Hsched & H1 & H2).
  rewrite Hsched, length_app, <- (Forall2_length _ _ _ H1), <- (Forall2_length _ _ _ H2),
    <- length_app. by apply Permutation_length.
Qed.

Lemma call_length tasks timeSlots stressLevel mood clk :
  length (optimized_schedule (call tasks timeSlots stressLevel mood clk)) = length tasks.
Proof.
  rewrite call_schedule, schedule_length.
  - by rewrite sort_desc_length, analysed_length.
  - destruct (mapM_analyse_spec stressLevel tasks clk 0 0) as [_ Haddr].
    rewrite (sort_desc_Permutation (analysed tasks stressLevel clk)).
    unfold analysed. rewrite Haddr. apply NoDup_seq.
Qed.

Lemma generateRecommendations_consistent sched stressLevel :
  Forall (λ item,
    (λ item, 0 <? allocated_duration item) item
    = negb ((λ item, bool_decide (completion_status item = not_scheduled)) item)) sched →
  generateRecommendations sched stressLevel
  = (if (count (λ item, bool_decide (completion_status item = not_scheduled)) sched =? 0)%nat
     then ["All tasks successfully scheduled!"]
     else
       (pretty (count (λ item, bool_decide (completion_status item = not_scheduled)) sched)
        +:+ " tasks need additional time slots - consider extending your schedule")
       :: (if (0 <? count (λ item, bool_decide (completion_status item = partial)) sched)%nat
           then [pretty (count (λ item, bool_decide (completion_status item = partial)) sched)
                 +:+ " tasks are partially scheduled - plan follow-up sessions"]
           else []))
    ++ (if 7 <=? stressLevel
        then ["High stress detected - take breaks between tasks"]
        else []).
Proof.
  intros Hcons. pose proof (count_split _ _ _ Hcons) as Hsum.
  unfold generateRecommendations. f_equal.
  set (u := count (λ item, bool_decide (completion_status item = not_scheduled)) sched) in *.
  set (a := count (λ item, 0 <? allocated_duration item) sched) in *.
  destruct (a =? length sched)%nat eqn:Ea.
  - apply Nat.eqb_eq in Ea. assert (u = 0%nat) as -> by lia. done.
  - apply Nat.eqb_neq in Ea. destruct u as [|u]; [lia|]. done.
Qed.

End Report.

(** X22. What a call recommends, every task having a positive duration:
    "All tasks successfully scheduled!" exactly when no item is unscheduled
    (also when there is no task at all); otherwise first the number of
    unscheduled tasks, then the number of partial ones if there are any; and
    last, for a stress level of 7 or more, the advice to take breaks. The list
    is never empty. *)
Theorem recommendations_of_call tasks timeSlots stressLevel mood clk :
  Forall (λ t, 0 < estimated_duration t) tasks →
  let sched := optimized_schedule (call tasks timeSlots stressLevel mood clk) in
  let unscheduled :=
    count (λ item, bool_decide (completion_status item = not_scheduled)) sched in
  let partials := count (λ item, bool_decide (completion_status item = partial)) sched in
  recommendations (insights (call tasks timeSlots stressLevel mood clk))
  = (if (unscheduled =? 0)%nat
     then ["All tasks successfully scheduled!"]
     else
       (pretty unscheduled
        +:+ " tasks need additional time slots - consider extending your schedule")
       :: (if (0 <? partials)%nat
           then [pretty partials +:+ " tasks are partially scheduled - plan follow-up sessions"]
           else []))
    ++ (if 7 <=? stressLevel
        then ["High stress detected - take breaks between tasks"]
        else []) ∧
  recommendations (insights (call tasks timeSlots stressLevel mood clk)) ≠ [].
Proof.
  intros Hpos sched unscheduled partials.
  rewrite call_recommendations.
  rewrite (generateRecommendations_consistent _ _
             (call_items_consistent tasks timeSlots stressLevel mood clk Hpos)).
  fold sched. fold unscheduled. fold partials. split; [done|].
  by destruct (unscheduled =? 0)%nat.
Qed.

Lemma recommendations_of_call_witness :
  Forall (λ t, 0 < estimated_duration t) low_then_high ∧
  let sched := optimized_schedule (call low_then_high [slot_of_minutes 60] 8 "focused" epoch) in
  let unscheduled :=
    count (λ item, bool_decide (completion_status item = not_scheduled)) sched in
  let partials := count (λ item, bool_decide (completion_status item = partial)) sched in
  recommendations (insights (call low_then_high [slot_of_minutes 60] 8 "focused" epoch))
  = (if (unscheduled =? 0)%nat
     then ["All tasks successfully scheduled!"]
     else
       (pretty unscheduled
        +:+ " tasks need additional time slots - consider extending your schedule")
       :: (if (0 <? partials)%nat
           then [pretty partials +:+ " tasks are partially scheduled - plan follow-up sessions"]
           else []))
    ++ (if 7 <=? 8
        then ["High stress detected - take breaks between tasks"]
        else []) ∧
  recommendations (insights (call low_then_high [slot_of_minutes 60] 8 "focused" epoch)) ≠ [].
Proof.
  assert (Forall (λ t, 0 < estimated_duration t) low_then_high) as H.
  { repeat constructor; simpl; lia. }
  split; [exact H|].
  exact (recommendations_of_call low_then_high [slot_of_minutes 60] 8 "focused" epoch H).
Defined.

(** X23. The counts of the result, every task having a positive duration:
    [total_tasks] is the number of items, and [scheduled_tasks] is the number
    of items that are not unscheduled. *)
Theorem task_counts tasks timeSlots stressLevel mood clk :
  Forall (λ t, 0 < estimated_duration t) tasks →
  let r := call tasks timeSlots stressLevel mood clk in
  total_tasks (task_analysis r) = length (optimized_schedule r) ∧
  (scheduled_tasks (task_analysis r)
   + count (λ item, bool_decide (completion_status item = not_scheduled))
       (optimized_schedule r))%nat
  = total_tasks (task_analysis r).
Proof.
  intros Hpos r. unfold r. rewrite call_task_analysis. simpl.
  rewrite call_length. split; [done|].
  rewrite (count_split _ _ _ (call_items_consistent tasks timeSlots stressLevel mood clk Hpos)).
  apply call_length.
Qed.

Lemma task_counts_witness :
  Forall (λ t, 0 < estimated_duration t) low_then_high ∧
  let r := call low_then_high [slot_of_minutes 60] 5 "focused" epoch in
  total_tasks (task_analysis r) = length (optimized_schedule r) ∧
  (scheduled_tasks (task_analysis r)
   + count (λ item, bool_decide (completion_status item = not_scheduled))
       (optimized_schedule r))%nat
  = total_tasks (task_analysis r).
Proof.
  assert (Forall (λ t, 0 < estimated_duration t) low_then_high) as H.
  { repeat constructor; simpl; lia. }
  split; [exact H|].
  exact (task_counts low_then_high [slot_of_minutes 60] 5 "focused" epoch H).
Defined.

(** ** The display *)

Section Display.

Lemma round_div_nearest n d :
  0 < d → - d < 2 * (d * round_div n d - n) ≤ d.
Proof.
  intros Hd. unfold round_div.
  pose proof (Z.div_mod (2 * n + d) (2 * d)) as Hdm.
  pose proof (Z.mod_pos_bound (2 * n + d) (2 * d)) as Hb. lia.
Qed.

Lemma round_div_nonneg n d : 0 < d → 0 ≤ n → 0 ≤ round_div n d.
Proof. intros Hd Hn. unfold round_div. apply Z.div_pos; lia. Qed.

Lemma round_div_small n d : 0 < d → 2 * n < d → round_div n d ≤ 0.
Proof.
  intros Hd Hn. unfold round_div.
  assert ((2 * n + d) / (2 * d) < 1); [|lia].
  apply Z.div_lt_upper_bound; lia.
Qed.

Lemma allocated_le_load j item sched :
  Forall (λ it, 0 ≤ allocated_duration it) sched →
  item ∈ sched → time_block item = Some j →
  allocated_duration item ≤ window_load j sched.
Proof.
  intros Hpos Hin Hb.
  assert (∀ l, Forall (λ it, 0 ≤ allocated_duration it) l → 0 ≤ window_load j l) as Hnn.
  { induction 1 as [|it l Hit _ IH]; simpl; [done|].
    unfold allocated_in. case_decide; lia. }
  induction Hpos as [|it l Hit Hl IH]; [by apply elem_of_nil in Hin|].
  apply elem_of_cons in Hin as [->|Hin]; simpl.
  - specialize (Hnn l Hl). unfold allocated_in. case_decide; [lia|done].
  - specialize (IH Hin). unfold allocated_in. case_decide; lia.
Qed.

Lemma shown_minutes parse tasks timeSlots stressLevel mood isUnscheduled :
  Forall (λ tr : TaskRef, 0 < estimated_duration tr.2) tasks →
  Forall (λ slot, 0 ≤ duration_minutes slot) timeSlots →
  Forall (λ item,
    actualDuration parse (slots_after tasks timeSlots) item isUnscheduled
    = Some (allocated_duration item))
    (createOptimizedScheduleFixed tasks timeSlots stressLevel mood).
Proof.
  intros Hpos Hnonneg. apply Forall_forall. intros item Hin.
  pose proof (items_consistent tasks timeSlots stressLevel mood Hpos) as Hcons.
  pose proof (final_block_facts tasks timeSlots stressLevel mood) as Hblock.
  unfold actualDuration. destruct (time_block item) as [j|] eqn:Hb; [|done].
  destruct isUnscheduled; [done|].
  destruct (proj1 (Forall_forall _ _) Hcons item Hin) as (_ & Hzero & _ & Hrange).
  destruct (proj1 (Forall_forall _ _) Hblock item Hin) as (_ & Hlt).
  specialize (Hlt j Hb).
  assert (0 < allocated_duration item) as Hgt.
  { destruct (decide (allocated_duration item = 0)) as [H0|H0]; [|lia].
    apply Hzero in H0. congruence. }
  destruct (lookup_lt_is_Some_2 timeSlots j Hlt) as [slot Hslot].
  pose proof (conservation_of_slots timeSlots Hnonneg tasks stressLevel mood j slot Hslot)
    as Hload.
  assert (allocated_duration item
          ≤ window_load j (createOptimizedScheduleFixed tasks timeSlots stressLevel mood))
    as Hle.
  { apply allocated_le_load; [|done|done].
    eapply Forall_impl; [exact Hcons|]. intros it (_ & _ & _ & H). simpl. lia. }
  unfold createOptimizedScheduleFixed, slots_after in *.
  destruct (nothing_to_do tasks timeSlots).
  { apply list_elem_of_fmap in Hin as (tr & -> & _). done. }
  destruct (conserving_final timeSlots Hnonneg tasks) as (Hlen & Hslots & _).
  destruct (lookup_lt_is_Some_2 (availableSlots (final_state tasks timeSlots)) j)
    as [s Hs]; [by rewrite Hlen|].
  destruct (Hslots _ _ Hs) as (Hsame & _ & _).
  rewrite Hslot in Hsame. injection Hsame as ->.
  rewrite Hs. simpl.
  destruct (duration_minutes (slot_of s) =? 0) eqn:E; [apply Z.eqb_eq in E; lia|].
  simpl. f_equal. lia.
Qed.

Lemma urgency_at_or0 t now : JS.or0 (urgency_at t now) = urgency_at t now.
Proof.
  unfold urgency_at, urgency_of_hours. destruct (deadline t); [|done].
  repeat destruct (JS.le _ _); done.
Qed.

Lemma analysed_urgency stressLevel tasks clk : ∀ i n,
  Forall (λ tr : TaskRef, ∃ m, urgency_field tr.2 = urgency_at tr.2 (clk m))
    (mapM_from (analyse stressLevel) tasks i clk n).1.
Proof.
  induction tasks as [|t l IH]; intros i n; [constructor|].
  rewrite mapM_from_cons, analyse_run.
  specialize (IH (S i) (n + reads t + reads t)%nat).
  destruct (mapM_from _ l _ _ _) as [ys n'']. simpl in *.
  constructor; [|done]. exists n. exact (urgency_at_or0 t (clk n)).
Qed.

Lemma schedule_item_tasks tasks timeSlots stressLevel mood :
  NoDup tasks.*1 →
  Forall (λ item, ∃ tr, tr ∈ tasks ∧ item_for tr item)
    (createOptimizedScheduleFixed tasks timeSlots stressLevel mood).
Proof.
  intros Hnd.
  destruct (schedule_structure tasks timeSlots stressLevel mood Hnd)
    as (fitted & others & l1 & l2 & _ & _ & Hperm & -> & H1 & H2).
  apply Forall_app. split.
  - assert (∀ tr, tr ∈ fitted → tr ∈ tasks) as Hsub.
    { intros tr Htr. rewrite <- Hperm. apply elem_of_app. by left. }
    clear Hperm. induction H1 as [|tr item l k (j & s & ->) _ IH]; constructor.
    + exists tr. split; [apply Hsub; by left|]. by left.
    + apply IH. intros tr' Htr'. apply Hsub. by right.
  - assert (∀ tr, tr ∈ others → tr ∈ tasks) as Hsub.
    { intros tr Htr. rewrite <- Hperm. apply elem_of_app. by right. }
    clear Hperm. induction H2 as [|tr item l k Hfor _ IH]; constructor.
    + exists tr. split; [apply Hsub; by left|done].
    + apply IH. intros tr' Htr'. apply Hsub. by right.
Qed.

Lemma call_item_urgency tasks timeSlots stressLevel mood clk :
  Forall (λ item, ∃ m, deadline_urgency item = urgency_at (task item) (clk m))
    (optimized_schedule (call tasks timeSlots stressLevel mood clk)).
Proof.
  rewrite call_schedule.
  assert (NoDup (sort_desc (analysed tasks stressLevel clk)).*1) as Hnd.
  { destruct (mapM_analyse_spec stressLevel tasks clk 0 0) as [_ Haddr].
    rewrite (sort_desc_Permutation (analysed tasks stressLevel clk)).
    unfold analysed. rewrite Haddr. apply NoDup_seq. }
  pose proof (schedule_item_tasks _ timeSlots stressLevel mood Hnd) as Htasks.
  pose proof (final_shape (sort_desc (analysed tasks stressLevel clk)) timeSlots
                stressLevel mood) as Hshape.
  pose proof (analysed_urgency stressLevel tasks clk 0 0) as Hurg.
  fold (analysed tasks stressLevel clk) in Hurg.
  rewrite <- (sort_desc_Permutation (analysed tasks stressLevel clk)) in Hurg.
  eapply Forall_impl; [apply Forall_and; split; [exact Htasks | exact Hshape]|].
  intros item [(tr & Htr & Hfor) [Hfield _]]. simpl.
  destruct (proj1 (Forall_forall _ _) Hurg tr Htr) as [m Hm].
  exists m. rewrite Hfield. destruct Hfor as [->| ->]; [done|].
  by rewrite urgency_field_with_title.
Qed.

End Display.

(** X24. [calculateSlotDuration] between two dates gives whole minutes, never
    negative: 0 when the end is before the start or less than half a minute
    after it, and otherwise the number of minutes nearest to the time between
    them (at most half a minute away, exact for whole minutes). When one of
    the dates is invalid the result is [NaN]: the fallback of 60 minutes is
    not what an unreadable time gives. *)
Theorem slot_duration_rounds (start end_ : Z) :
  (∃ minutes,
     calculateSlotDuration (TimeValue start) (TimeValue end_) = Some minutes ∧
     0 ≤ minutes ∧
     (end_ - start < 30000 → minutes = 0) ∧
     (0 ≤ end_ - start → -30000 < 60000 * minutes - (end_ - start) ≤ 30000)) ∧
  (∀ k, 0 ≤ k →
     calculateSlotDuration (TimeValue start) (TimeValue (start + 60000 * k)) = Some k) ∧
  (∀ d, calculateSlotDuration InvalidDate d = None ∧
        calculateSlotDuration d InvalidDate = None).
Proof.
  split; [|split].
  - eexists. split; [reflexivity|]. split; [lia|]. split.
    + intros Hsmall.
      pose proof (round_div_small (end_ - start) (1000 * 60)). lia.
    + intros Hpos.
      pose proof (round_div_nonneg (end_ - start) (1000 * 60)).
      pose proof (round_div_nearest (end_ - start) (1000 * 60)). lia.
  - intros k Hk. simpl. f_equal.
    pose proof (round_div_nearest (start + 60000 * k - start) (1000 * 60)). lia.
  - intros d. split; [done|]. by destruct d.
Qed.

(** X25. The display shows what was allocated: for the items of a call (every
    task having a positive duration, no slot a negative one) the minutes that
    [renderScheduleItem] shows are the item's [allocated_duration], whichever
    way the item is rendered; the cap by the duration of the time block never
    bites, and the duration of the time block is never recomputed from its
    strings. *)
Theorem shown_minutes_are_allocated parse tasks timeSlots stressLevel mood clk isUnscheduled :
  Forall (λ t, 0 < estimated_duration t) tasks →
  Forall (λ slot, 0 ≤ duration_minutes slot) timeSlots →
  let r := call tasks timeSlots stressLevel mood clk in
  Forall (λ item,
    actualDuration parse (slot_objects r) item isUnscheduled
    = Some (allocated_duration item))
    (optimized_schedule r).
Proof.
  intros Hpos Hnonneg r. unfold r. rewrite call_schedule, call_slot_objects.
  apply shown_minutes; [|done].
  by apply (analysed_durations (λ d, 0 < d)).
Qed.

Lemma shown_minutes_are_allocated_witness :
  Forall (λ t, 0 < estimated_duration t) long_and_short ∧
  Forall (λ slot, 0 ≤ duration_minutes slot) [slot_of_minutes 90] ∧
  let r := call long_and_short [slot_of_minutes 90] 5 "focused" epoch in
  Forall (λ item,
    actualDuration (λ _, InvalidDate) (slot_objects r) item false
    = Some (allocated_duration item))
    (optimized_schedule r).
Proof.
  assert (Forall (λ t, 0 < estimated_duration t) long_and_short) as H1.
  { repeat constructor; simpl; lia. }
  assert (Forall (λ slot, 0 ≤ duration_minutes slot) [slot_of_minutes 90]) as H2.
  { repeat constructor. simpl. lia. }
  split; [exact H1|]. split; [exact H2|].
  exact (shown_minutes_are_allocated (λ _, InvalidDate) long_and_short [slot_of_minutes 90]
           5 "focused" epoch false H1 H2).
Defined.

(** X26. The urgency badge of an item of a call follows the deadline of its
    task: no badge for a task without a deadline; LOW PRIORITY for a deadline
    that is not a date; and for a dated deadline, taking the hours from a
    reading of the clock during the call, URGENT up to 24 hours (also when it
    has passed), MEDIUM up to 48 hours, and LOW PRIORITY beyond. *)
Theorem urgency_badge_of_deadline tasks timeSlots stressLevel mood clk :
  Forall (λ item,
    match deadline (task item) with
    | None => urgencyBadge item = None
    | Some InvalidDate => urgencyBadge item = Some LOW_PRIORITY
    | Some (TimeValue ms) =>
        ∃ m, urgencyBadge item
             = Some (if Qle_bool (inject_Z (ms - clk m) / inject_Z (1000 * 60 * 60)) 24
                     then URGENT
                     else if Qle_bool (inject_Z (ms - clk m) / inject_Z (1000 * 60 * 60)) 48
                          then MEDIUM
                          else LOW_PRIORITY)
    end)
    (optimized_schedule (call tasks timeSlots stressLevel mood clk)).
Proof.
  eapply Forall_impl; [apply call_item_urgency|].
  intros item [m Hm]. simpl in Hm.
  unfold urgencyBadge. rewrite Hm, urgency_at_or0. unfold urgency_at.
  destruct (deadline (task item)) as [[|ms]|]; [done| |done].
  exists m. unfold hoursUntil, urgency_of_hours, JS.le.
  set (h := (inject_Z (ms - clk m) / inject_Z (1000 * 60 * 60))%Q).
  destruct (Qle_bool h 6) eqn:E6;
    [apply Qle_bool_iff in E6 | apply Qle_bool_false in E6];
  (destruct (Qle_bool h 24) eqn:E24;
    [apply Qle_bool_iff in E24 | apply Qle_bool_false in E24]);
  (destruct (Qle_bool h 48) eqn:E48;
    [apply Qle_bool_iff in E48 | apply Qle_bool_false in E48]);
  (destruct (Qle_bool h 168) eqn:E168;
    [apply Qle_bool_iff in E168 | apply Qle_bool_false in E168]);
  try reflexivity; exfalso; lra.
Qed.
